(** * dnstool: the DNS log aggregation of [alternate-dns-analyzer.tsx]

    A shallow embedding of [extractBaseDomain] and [processData], with the
    JavaScript and lodash operations they call, and of the device table
    that the specification describes for the preprocessing script. *)

From Stdlib Require Import Ascii ZArith QArith Lia Lqa.
From stdpp Require Import base list strings gmap pretty sorting.

Local Open Scope nat_scope.

(** ** JavaScript strings

    A string is the sequence of its code units.  The only character the
    code looks for is the full stop, a single unit. *)

Module JSString.

(** [s.split(sep)] for a one-character separator: never an empty array,
    [[""]] on the empty string. *)
Fixpoint split (sep : ascii) (s : string) : list string :=
  match s with
  | EmptyString => [EmptyString]
  | String c rest =>
      if Ascii.eqb c sep then EmptyString :: split sep rest
      else match split sep rest with
           | [] => [String c EmptyString]
           | lbl :: more => String c lbl :: more
           end
  end.

(** [parts.join(sep)]. *)
Fixpoint join (sep : string) (parts : list string) : string :=
  match parts with
  | [] => EmptyString
  | p :: more =>
      match more with
      | [] => p
      | _ :: _ => p +:+ sep +:+ join sep more
      end
  end.

(** [arr.slice(-n)]: the start index is [max (length - n) 0]. *)
Definition slice_last {A} (n : nat) (arr : list A) : list A :=
  drop (length arr - n) arr.

(** [s.endsWith(suffix)]. *)
Definition endsWith (s suffix : string) : bool :=
  let n := String.length s in
  let m := String.length suffix in
  if m <=? n then String.eqb (String.substring (n - m) m s) suffix
  else false.

(** ToBoolean on a string: only the empty string is falsy. *)
Definition truthy (s : string) : bool :=
  match s with EmptyString => false | String _ _ => true end.

(** [t] is a suffix of [s]. *)
Definition is_suffix_of (t s : string) : Prop := ∃ p, s = p +:+ t.

End JSString.

(** ** extractBaseDomain

    [None] is JavaScript's [null]. *)

Definition extractBaseDomain (queryValue : string) : option string :=
  if negb (JSString.truthy queryValue) then None
  else if JSString.endsWith queryValue ".in-addr.arpa"
          || JSString.endsWith queryValue ".ip6.arpa"
  then Some (JSString.join "." (JSString.slice_last 2 (JSString.split "." queryValue)))
  else
    let parts := JSString.split "." queryValue in
    if 2 <=? length parts
    then Some (JSString.join "." (JSString.slice_last 2 parts))
    else Some queryValue.

(** ** JavaScript values

    A parsed row is an object from column name to cell.  With dynamic
    typing a cell is a string, a number, a boolean or null; a column that
    the row lacks reads as undefined.  Of a number the code observes only
    its truthiness and its rendering as a property key, so the numeric
    type stays abstract behind these two operations. *)

Class JSNum (Num : Type) : Type := {
  num_truthy : Num → bool;
  num_toString : Num → string
}.

Inductive jsval (Num : Type) : Type :=
| JSUndefined
| JSNull
| JSBool (b : bool)
| JSNumber (n : Num)
| JSStr (s : string).
Arguments JSUndefined {Num}.
Arguments JSNull {Num}.
Arguments JSBool {Num} b.
Arguments JSNumber {Num} n.
Arguments JSStr {Num} s.

(** ** Objects with string keys

    A plain object is kept as the list of its own properties in creation
    order, which is what fixes the order of [Object.entries]. *)

Module JSObject.

Definition t (V : Type) : Type := list (string * V).

(** [o[k] = f (o[k])] when [k] is an own property, otherwise [k] is
    created last with value [v0]. *)
Fixpoint upsert {V} (k : string) (f : V → V) (v0 : V) (o : t V) : t V :=
  match o with
  | [] => [(k, v0)]
  | (k', v) :: rest =>
      if String.eqb k' k then (k', f v) :: rest
      else (k', v) :: upsert k f v0 rest
  end.

(** [o[k]] for an own property [k]. *)
Fixpoint lookup {V} (k : string) (o : t V) : option V :=
  match o with
  | [] => None
  | (k', v) :: rest => if String.eqb k' k then Some v else lookup k rest
  end.

Definition is_digit (c : ascii) : bool :=
  let n := N_of_ascii c in ((48 <=? n) && (n <=? 57))%N.

Fixpoint digits_value (acc : N) (s : string) : option N :=
  match s with
  | EmptyString => Some acc
  | String c rest =>
      if is_digit c
      then digits_value (10 * acc + (N_of_ascii c - 48))%N rest
      else None
  end.

(** An array index is a canonical numeric string below [2^32 - 1]. *)
Definition array_index (k : string) : option N :=
  match k with
  | EmptyString => None
  | String c rest =>
      if Ascii.eqb c "0"
      then match rest with EmptyString => Some 0%N | _ => None end
      else match digits_value 0 k with
           | Some n => if (n <? 2 ^ 32 - 1)%N then Some n else None
           | None => None
           end
  end.

Definition is_index_key {V} (p : string * V) : bool :=
  match array_index p.1 with Some _ => true | None => false end.

Definition index_of {V} (p : string * V) : N :=
  default 0%N (array_index p.1).

Fixpoint insert_by_index {V} (p : string * V) (sorted : list (string * V))
  : list (string * V) :=
  match sorted with
  | [] => [p]
  | q :: rest =>
      if (index_of p <=? index_of q)%N then p :: q :: rest
      else q :: insert_by_index p rest
  end.

(** [Object.entries(o)]: array-index keys in ascending numeric order,
    then the other keys in creation order. *)
Definition entries {V} (o : t V) : list (string * V) :=
  foldr insert_by_index [] (List.filter is_index_key o)
    ++ List.filter (λ p, negb (is_index_key p)) o.

(** [Object.keys(o)]. *)
Definition keys {V} (o : t V) : list string := fst <$> entries o.

End JSObject.

(** ** Array.prototype.sort

    The sort is stable, and the comparators used here are consistent, so
    the result is the stable ordering by the comparator: an element moves
    in front of another only when the comparator puts it strictly first. *)

Fixpoint sort_insert {A} (cmp : A → A → Z) (x : A) (sorted : list A) : list A :=
  match sorted with
  | [] => [x]
  | y :: rest =>
      if (cmp x y <=? 0)%Z then x :: y :: rest
      else y :: sort_insert cmp x rest
  end.

Definition js_sort {A} (cmp : A → A → Z) (arr : list A) : list A :=
  foldr (sort_insert cmp) [] arr.

(** The same ordering reached the other way round, as an engine does on
    short arrays: the elements are taken from the left, and each goes
    behind the elements already placed that do not come strictly after it. *)

Fixpoint sort_insert_behind {A} (cmp : A → A → Z) (x : A) (sorted : list A)
  : list A :=
  match sorted with
  | [] => [x]
  | y :: rest =>
      if (cmp x y <? 0)%Z then x :: y :: rest
      else y :: sort_insert_behind cmp x rest
  end.

Definition insertion_sort {A} (cmp : A → A → Z) (arr : list A) : list A :=
  foldl (λ sorted x, sort_insert_behind cmp x sorted) [] arr.

(** The comparator [(a, b) => b.f - a.f] on a numeric field. *)
Definition descending {A} (f : A → nat) (a b : A) : Z :=
  (Z.of_nat (f b) - Z.of_nat (f a))%Z.

(** Non-increasing in the field [f]. *)
Definition sorted_desc {A} (f : A → nat) (arr : list A) : Prop :=
  StronglySorted (λ a b, f b ≤ f a) arr.

(** The elements whose field [f] is [c], in the order they have in [arr]. *)
Definition ties {A} (f : A → nat) (c : nat) (arr : list A) : list A :=
  List.filter (λ a, f a =? c) arr.

(** A ranking by count with ties in ascending order of the key. *)
Definition ranked_by_count_then_key {A} (key : A → string) (count : A → nat)
    (arr : list A) : Prop :=
  StronglySorted
    (λ a b, count b < count a
            ∨ (count a = count b ∧ String.leb (key a) (key b) = true)) arr.

(** What the language guarantees of any engine's sort under such a
    comparator: the result is ordered by it, and elements that compare
    equal keep their relative order. *)
Definition ecma_sort (sort : ∀ A : Type, (A → A → Z) → list A → list A) : Prop :=
  ∀ (A : Type) (f : A → nat) (arr : list A),
    sorted_desc f (sort A (descending f) arr)
    ∧ ∀ c, ties f c (sort A (descending f) arr) = ties f c arr.

(** ** lodash *)

(** [_.groupBy(collection, iteratee)]. *)
Definition groupBy {A} (iteratee : A → string) (collection : list A)
  : JSObject.t (list A) :=
  foldl (λ result value,
           JSObject.upsert (iteratee value) (λ group, group ++ [value]) [value] result)
        [] collection.

(** [_.countBy(collection, iteratee)]. *)
Definition countBy {A} (iteratee : A → string) (collection : list A)
  : JSObject.t nat :=
  foldl (λ result value, JSObject.upsert (iteratee value) S 1 result)
        [] collection.

(** ** The analysis result *)

Module DomainCount.
Record t : Type := mk { domain : string; count : nat }.
End DomainCount.

Module IpCount.
Record t : Type := mk { ip : string; count : nat }.
End IpCount.

Module IpEntry.
Record t : Type := mk {
  ip : string;
  uniqueDomains : nat;
  totalQueries : nat;
  domains : list DomainCount.t
}.
End IpEntry.

Module DomainEntry.
Record t : Type := mk {
  domain : string;
  uniqueIPs : nat;
  totalQueries : nat;
  ips : list IpCount.t
}.
End DomainEntry.

Module QueryType.
Record t : Type := mk { name : string; value : nat }.
End QueryType.

Module Summary.
Record t : Type := mk {
  totalRecords : nat;
  uniqueDomains : nat;
  uniqueIPs : nat;
  queryTypes : list QueryType.t
}.
End Summary.

Record Analysis : Type := mkAnalysis {
  summary : Summary.t;
  topDomains : list DomainCount.t;
  topIPs : list IpCount.t;
  ipDomainCounts : list IpEntry.t;
  domainIPCounts : list DomainEntry.t
}.

(** ** processData

    [processData_with] is the function with the engine's
    [Array.prototype.sort] as a parameter; [processData] runs it with
    [js_sort]. *)

Section ProcessData.
Context {Num : Type} `{JSNum Num}.
Variable sort : ∀ A : Type, (A → A → Z) → list A → list A.

Local Abbreviation row := (gmap string (jsval Num)).

(** [r[prop]]. *)
Definition get (r : row) (prop : string) : jsval Num :=
  default JSUndefined (r !! prop).

(** ToBoolean. *)
Definition truthy (v : jsval Num) : bool :=
  match v with
  | JSUndefined | JSNull => false
  | JSBool b => b
  | JSNumber n => num_truthy n
  | JSStr s => JSString.truthy s
  end.

(** [typeof v === "string"]. *)
Definition is_string (v : jsval Num) : bool :=
  match v with JSStr _ => true | _ => false end.

(** ToString, as applied to a value used as a property key. *)
Definition toPropertyKey (v : jsval Num) : string :=
  match v with
  | JSUndefined => "undefined"
  | JSNull => "null"
  | JSBool true => "true"
  | JSBool false => "false"
  | JSNumber n => num_toString n
  | JSStr s => s
  end.

(** The lodash iteratee for a property name. *)
Definition property (prop : string) (r : row) : string :=
  toPropertyKey (get r prop).

(** The predicate of the first [filter]. *)
Definition isValidRow (r : row) : bool :=
  truthy (get r "Query Value")
  && truthy (get r "Client IP")
  && is_string (get r "Query Value")
  && is_string (get r "Client IP").

(** [{...row, baseDomain: extractBaseDomain(row["Query Value"])}].  The
    filter admits only rows whose query value is a string, so the call
    is made on strings only. *)
Definition enrich (r : row) : row :=
  <["baseDomain" :=
      match get r "Query Value" with
      | JSStr s =>
          match extractBaseDomain s with
          | Some d => JSStr d
          | None => JSNull
          end
      | _ => JSNull
      end]> r.

(** [validData] and [enrichedData] as functions of the input. *)
Definition validRows (data : list row) : list row :=
  List.filter isValidRow data.

Definition enrichedRows (data : list row) : list row :=
  enrich <$> validRows data.

(** [Object.entries(domainCounts).map(...)], before the sort. *)
Definition domainEntries (rows : list row) : list DomainCount.t :=
  (λ p, DomainCount.mk p.1 p.2)
    <$> JSObject.entries (countBy (property "baseDomain") rows).

(** [Object.entries(ipCounts).map(...)], before the sort. *)
Definition ipEntries (rows : list row) : list IpCount.t :=
  (λ p, IpCount.mk p.1 p.2)
    <$> JSObject.entries (countBy (property "Client IP") rows).

(** [Object.entries(domainCounts).map(...).sort(...)]. *)
Definition domainCounts_with (rows : list row) : list DomainCount.t :=
  sort _ (descending DomainCount.count) (domainEntries rows).

(** [Object.entries(ipCounts).map(...).sort(...)]. *)
Definition ipCounts_with (rows : list row) : list IpCount.t :=
  sort _ (descending IpCount.count) (ipEntries rows).

Definition processData_with (data : list row) : Analysis :=
  let validData := validRows data in
  let enrichedData := enrich <$> validData in
  let ipToDomains := groupBy (property "Client IP") enrichedData in
  let ipDomainCounts :=
    (λ p : string * list row,
       let domainCounts := countBy (property "baseDomain") p.2 in
       IpEntry.mk p.1
                  (length (JSObject.keys domainCounts))
                  (length p.2)
                  (domainCounts_with p.2))
      <$> JSObject.entries ipToDomains in
  let domainToIPs := groupBy (property "baseDomain") enrichedData in
  let domainIPCounts :=
    (λ p : string * list row,
       let ipCounts := countBy (property "Client IP") p.2 in
       DomainEntry.mk p.1
                      (length (JSObject.keys ipCounts))
                      (length p.2)
                      (ipCounts_with p.2))
      <$> JSObject.entries domainToIPs in
  let queryTypeCounts := countBy (property "Query Type") enrichedData in
  let queryTypeData :=
    (λ p : string * nat,
       QueryType.mk (if JSString.truthy p.1 then p.1 else "Unknown") p.2)
      <$> List.filter (λ p : string * nat, negb (String.eqb p.1 "null"))
            (JSObject.entries queryTypeCounts) in
  let domainCounts := countBy (property "baseDomain") enrichedData in
  let topDomains := domainCounts_with enrichedData in
  let ipCounts := countBy (property "Client IP") enrichedData in
  let topIPs := ipCounts_with enrichedData in
  {| summary :=
       {| Summary.totalRecords := length enrichedData;
          Summary.uniqueDomains := length (JSObject.keys domainCounts);
          Summary.uniqueIPs := length (JSObject.keys ipCounts);
          Summary.queryTypes := queryTypeData |};
     topDomains := topDomains;
     topIPs := topIPs;
     ipDomainCounts := sort _ (descending IpEntry.totalQueries) ipDomainCounts;
     domainIPCounts := sort _ (descending DomainEntry.totalQueries) domainIPCounts |}.

End ProcessData.

Definition domainCountsOf {Num} `{JSNum Num} (rows : list (gmap string (jsval Num)))
  : list DomainCount.t :=
  domainCounts_with (@js_sort) rows.

Definition ipCountsOf {Num} `{JSNum Num} (rows : list (gmap string (jsval Num)))
  : list IpCount.t :=
  ipCounts_with (@js_sort) rows.

Definition processData {Num} `{JSNum Num} (data : list (gmap string (jsval Num)))
  : Analysis :=
  processData_with (@js_sort) data.

(** Numeric cells as integers, for running the model on sample rows. *)
#[export] Instance Z_JSNum : JSNum Z := {|
  num_truthy n := negb (n =? 0)%Z;
  num_toString n := pretty n
|}.

Definition sample_row (q ip : string) : gmap string (jsval Z) :=
  {[ "Query Value" := JSStr q; "Client IP" := JSStr ip ]}.

(** The comparator [(a, b) => a.f - b.f] on a numeric field. *)
Definition ascending {A} (f : A → nat) (a b : A) : Z :=
  (Z.of_nat (f a) - Z.of_nat (f b))%Z.

(** ** The views

    The component keeps the analysis and the controls of the list views
    in its state; the functions below read that state.  Of the state only
    the fields these functions use are kept. *)

Module View.

(** [s.includes(t)]. *)
Fixpoint includes (s t : string) : bool :=
  String.prefix t s
  || match s with
     | EmptyString => false
     | String _ rest => includes rest t
     end.

(** The field names [toggleSort] is called with; the sort field never
    holds another value. *)
Inductive SortField : Type := totalQueries | uniqueDomains | uniqueIPs.

Inductive SortDirection : Type := asc | desc.

Inductive ActiveView : Type := overview | ips | domains | network.

Record State : Type := mkState {
  analysisResults : option Analysis;
  activeView : ActiveView;
  searchTerm : string;
  sortField : SortField;
  sortDirection : SortDirection
}.

(** The state of the [useState] initial values. *)
Definition initialState : State :=
  {| analysisResults := None;
     activeView := overview;
     searchTerm := "";
     sortField := totalQueries;
     sortDirection := desc |}.

Definition sortField_eqb (a b : SortField) : bool :=
  match a, b with
  | totalQueries, totalQueries | uniqueDomains, uniqueDomains
  | uniqueIPs, uniqueIPs => true
  | _, _ => false
  end.

(** [toggleSort(field)]. *)
Definition toggleSort (field : SortField) (s : State) : State :=
  if sortField_eqb (sortField s) field
  then {| analysisResults := analysisResults s;
          activeView := activeView s;
          searchTerm := searchTerm s;
          sortField := sortField s;
          sortDirection := match sortDirection s with asc => desc | desc => asc end |}
  else {| analysisResults := analysisResults s;
          activeView := activeView s;
          searchTerm := searchTerm s;
          sortField := field;
          sortDirection := desc |}.

(** The field the second sort button toggles:
    [activeView === "ips" ? "uniqueDomains" : "uniqueIPs"]. *)
Definition uniqueField (s : State) : SortField :=
  match activeView s with ips => uniqueDomains | _ => uniqueIPs end.

(** [item[sortField]] on an entry of the address view: a number, or
    undefined ([None]) for the field the entry does not have. *)
Definition ipEntryField (f : SortField) (item : IpEntry.t) : option nat :=
  match f with
  | totalQueries => Some (IpEntry.totalQueries item)
  | uniqueDomains => Some (IpEntry.uniqueDomains item)
  | uniqueIPs => None
  end.

(** [item[sortField]] on an entry of the domain view. *)
Definition domainEntryField (f : SortField) (item : DomainEntry.t) : option nat :=
  match f with
  | totalQueries => Some (DomainEntry.totalQueries item)
  | uniqueIPs => Some (DomainEntry.uniqueIPs item)
  | uniqueDomains => None
  end.

(** [x - y] on two such values; [None] is NaN. *)
Definition subtract (x y : option nat) : option Z :=
  match x, y with
  | Some a, Some b => Some (Z.of_nat a - Z.of_nat b)%Z
  | _, _ => None
  end.

(** The comparator of the two list views. *)
Definition compareBy {A} (field : A → option nat) (direction : SortDirection)
    (a b : A) : option Z :=
  match direction with
  | asc => subtract (field a) (field b)
  | desc => subtract (field b) (field a)
  end.

(** The sort reads a comparator result that is NaN as +0. *)
Definition sortCompare {A} (comparator : A → A → option Z) (a b : A) : Z :=
  default 0%Z (comparator a b).

(** Ordered by the field [f], upwards or downwards. *)
Definition ordered {A} (f : A → nat) (direction : SortDirection) (l : list A)
  : Prop :=
  match direction with
  | asc => StronglySorted (λ a b, f a ≤ f b) l
  | desc => sorted_desc f l
  end.

Section Search.
(** [String.prototype.toLowerCase], the case mapping of the engine. *)
Variable toLowerCase : string → string.

(** The predicate of the [filter] of the two list views. *)
Definition matchesSearch (s : State) (name : string) : bool :=
  includes (toLowerCase name) (toLowerCase (searchTerm s)).

(** [getFilteredIPData()]. *)
Definition getFilteredIPData (s : State) : list IpEntry.t :=
  match analysisResults s with
  | None => []
  | Some results =>
      js_sort (sortCompare (compareBy (ipEntryField (sortField s)) (sortDirection s)))
        (List.filter (λ item, matchesSearch s (IpEntry.ip item))
                     (ipDomainCounts results))
  end.

(** [getFilteredDomainData()]. *)
Definition getFilteredDomainData (s : State) : list DomainEntry.t :=
  match analysisResults s with
  | None => []
  | Some results =>
      js_sort (sortCompare (compareBy (domainEntryField (sortField s)) (sortDirection s)))
        (List.filter (λ item, matchesSearch s (DomainEntry.domain item))
                     (domainIPCounts results))
  end.
End Search.

(** A case mapping for running the views: the letters A to Z. *)
Fixpoint lowerAscii (s : string) : string :=
  match s with
  | EmptyString => EmptyString
  | String c rest =>
      let n := N_of_ascii c in
      String (if ((65 <=? n) && (n <=? 90))%N then ascii_of_N (n + 32) else c)
             (lowerAscii rest)
  end.

Module ChartItem.
Record t : Type := mk { name : string; value : nat }.
End ChartItem.

(** [topDomainsChart] of [renderOverview]. *)
Definition topDomainsChart (results : Analysis) : list ChartItem.t :=
  (λ item, ChartItem.mk (DomainCount.domain item) (DomainCount.count item))
    <$> take 10 (topDomains results).

(** [topIPsChart] of [renderOverview]. *)
Definition topIPsChart (results : Analysis) : list ChartItem.t :=
  (λ item, ChartItem.mk (IpCount.ip item) (IpCount.count item))
    <$> take 10 (topIPs results).

Module HeatCell.
Record t : Type := mk { domain : string; ip : string; value : nat }.
End HeatCell.

(** The cell that [renderNetworkView] pushes for a domain and one of the
    top addresses. *)
Definition heatmapCell (domainData : DomainEntry.t) (domain : DomainCount.t)
    (ipObj : IpCount.t) : HeatCell.t :=
  let ipData :=
    List.find (λ i, String.eqb (IpCount.ip i) (IpCount.ip ipObj))
              (DomainEntry.ips domainData) in
  HeatCell.mk (DomainCount.domain domain) (IpCount.ip ipObj)
    (match ipData with
     | Some found => IpCount.count found
     | None => 0
     end).

(** The inner [forEach]: one cell for each of the top addresses. *)
Definition heatmapRow (domainData : DomainEntry.t) (domain : DomainCount.t)
    (topIPs : list IpCount.t) (data : list HeatCell.t) : list HeatCell.t :=
  foldl (λ data ipObj, data ++ [heatmapCell domainData domain ipObj]) data topIPs.

(** The array [data] of [renderNetworkView]. *)
Definition heatmapData (results : Analysis) : list HeatCell.t :=
  let topDomains := take 10 (topDomains results) in
  let topIPs := take 10 (topIPs results) in
  foldl (λ data domain,
           match List.find (λ d, String.eqb (DomainEntry.domain d)
                                            (DomainCount.domain domain))
                           (domainIPCounts results) with
           | Some domainData => heatmapRow domainData domain topIPs data
           | None => data
           end)
        [] topDomains.

(** The [value] of the table cell of a domain and an address. *)
Definition heatmapValue (results : Analysis) (domain : DomainCount.t)
    (ip : IpCount.t) : nat :=
  match List.find (λ d, String.eqb (HeatCell.domain d) (DomainCount.domain domain)
                        && String.eqb (HeatCell.ip d) (IpCount.ip ip))
                  (heatmapData results) with
  | Some cell => HeatCell.value cell
  | None => 0
  end.

(** The column header of an address, [ip.ip.split(".").pop()]; [None] is
    the undefined that [pop] gives on an empty array. *)
Definition columnLabel (ip : IpCount.t) : option string :=
  last (JSString.split "." (IpCount.ip ip)).

End View.

(** ** The device table

    The record [Device] is the interface of the repository's types file.
    The preprocessing script [dns-analysis.py] that parses the NextDNS
    export and fills the table is not among the sources; what it has to
    do is taken from the specification. *)

Module Devices.

Record Device : Type := mkDevice {
  ip : string;
  query_count : nat;
  unique_domains : nat;
  blocked_count : nat;
  blocked_percentage : Q
}.

(** Modelled from the spec: the status of a log record of the missing
    script, the canonical enum {allowed, blocked, unknown}. *)
Inductive Status : Type := allowed | blocked | unknown.

(** Modelled from the spec: the provenance tag of a log record of the
    missing script, {routeros, nextdns}. *)
Inductive Source : Type := routeros | nextdns.

(** Modelled from the spec: the log record that the missing parsers
    produce, with the fields the device table reads and its provenance. *)
Record LogRecord : Type := mkLogRecord {
  query_domain : string;
  base_domain : string;
  client_ip : string;
  status : Status;
  source : Source
}.

(** Modelled from the spec: a row of the NextDNS export as the missing
    parser reads it with a tabular reader, the status column still in its
    source spelling. *)
Record NextDNSRow : Type := mkNextDNSRow {
  row_domain : string;
  row_client_ip : string;
  row_status : string
}.

(** Modelled from the spec: the case folding of one character by the
    missing status normalization, on the letters A to Z. *)
Definition lower_char (c : ascii) : ascii :=
  let n := N_of_ascii c in
  if ((65 <=? n) && (n <=? 90))%N then ascii_of_N (n + 32) else c.

(** Modelled from the spec: the case folding of the status column by the
    missing status normalization. *)
Fixpoint lower (s : string) : string :=
  match s with
  | EmptyString => EmptyString
  | String c rest => String (lower_char c) (lower rest)
  end.

(** Modelled from the spec: the test [status == blocked] of the missing
    device aggregation. *)
Definition is_blocked (s : Status) : bool :=
  match s with blocked => true | _ => false end.

(** Modelled from the spec: the percentage of the missing device
    aggregation, [blocked_count / query_count * 100], 0 when
    [query_count] is 0; over the rationals. *)
Definition percentage (blocked_count query_count : nat) : Q :=
  if query_count =? 0 then 0%Q
  else (inject_Z (Z.of_nat blocked_count) / inject_Z (Z.of_nat query_count) * 100)%Q.

(** Modelled from the spec: the division of the language of the missing
    script, which raises on a zero divisor; [None] is that fault. *)
Definition divide (x y : Q) : option Q :=
  if Qeq_bool y 0 then None else Some (x / y)%Q.

(** Modelled from the spec: the percentage as the missing device
    aggregation computes it, the faulting division behind the test on
    [query_count]. *)
Definition percentage_checked (blocked_count query_count : nat) : option Q :=
  if query_count =? 0 then Some 0%Q
  else (λ ratio, ratio * 100)%Q
         <$> divide (inject_Z (Z.of_nat blocked_count))
                    (inject_Z (Z.of_nat query_count)).

(** Modelled from the spec: the row that the missing device aggregation
    builds for one client address: its records, the distinct base domains
    among them, and those whose normalized status is blocked. *)
Definition device_of (records : list LogRecord) (addr : string) : Device :=
  let mine := List.filter (λ r, String.eqb (client_ip r) addr) records in
  let blocked_here := List.filter (λ r, is_blocked (status r)) mine in
  {| ip := addr;
     query_count := length mine;
     unique_domains := length (remove_dups (base_domain <$> mine));
     blocked_count := length blocked_here;
     blocked_percentage := percentage (length blocked_here) (length mine) |}.

(** Modelled from the spec: the device table of the missing aggregation,
    one device per distinct client address. *)
Definition devices (records : list LogRecord) : list Device :=
  device_of records <$> remove_dups (client_ip <$> records).

(** Modelled from the spec: the total query count of the overview
    statistics of the missing aggregation. *)
Definition total_queries (records : list LogRecord) : nat := length records.

Section Folding.
(** The spellings of the status column of the export, read after case
    folding.  The specification fixes only that of "blocked". *)
Variable vocabulary : string → Status.

(** Modelled from the spec: the status normalization of the missing
    NextDNS parser, the column folded case-insensitively into the
    canonical enum. *)
Definition fold_status (raw : string) : Status := vocabulary (lower raw).

(** Modelled from the spec: the record that the missing NextDNS parser
    makes of a row, its status normalized; a row without domain or client
    address is dropped. *)
Definition nextdns_record (r : NextDNSRow) : option LogRecord :=
  if JSString.truthy (row_domain r) && JSString.truthy (row_client_ip r)
  then Some {| query_domain := row_domain r;
               base_domain := default (row_domain r) (extractBaseDomain (row_domain r));
               client_ip := row_client_ip r;
               status := fold_status (row_status r);
               source := nextdns |}
  else None.

(** Modelled from the spec: the records that the missing NextDNS parser
    makes of an export. *)
Definition nextdns_records (rows : list NextDNSRow) : list LogRecord :=
  omap nextdns_record rows.

(** The row yields a record of the client address [addr]. *)
Definition counted_for (addr : string) (r : NextDNSRow) : bool :=
  JSString.truthy (row_domain r) && JSString.truthy (row_client_ip r)
  && String.eqb (row_client_ip r) addr.

(** Two rows that differ at most in the case of the status column. *)
Definition same_up_to_status_case (a b : NextDNSRow) : Prop :=
  row_domain a = row_domain b
  ∧ row_client_ip a = row_client_ip b
  ∧ lower (row_status a) = lower (row_status b).
End Folding.

(** A vocabulary for running the model: "blocked" and "allowed". *)
Definition sample_vocabulary (folded : string) : Status :=
  if String.eqb folded "blocked" then blocked
  else if String.eqb folded "allowed" then allowed
  else unknown.

End Devices.

(** ** Sample inputs *)

(** Three rows of one client with the status spelt three ways, and the
    same rows with the status in lower case. *)
Definition mixed_case_rows : list Devices.NextDNSRow :=
  [ Devices.mkNextDNSRow "ads.example.com" "10.0.0.7" "Blocked";
    Devices.mkNextDNSRow "cdn.example.net" "10.0.0.7" "blocked";
    Devices.mkNextDNSRow "ads.example.com" "10.0.0.7" "BLOCKED" ].

Definition lower_case_rows : list Devices.NextDNSRow :=
  [ Devices.mkNextDNSRow "ads.example.com" "10.0.0.7" "blocked";
    Devices.mkNextDNSRow "cdn.example.net" "10.0.0.7" "blocked";
    Devices.mkNextDNSRow "ads.example.com" "10.0.0.7" "blocked" ].

(** Two domains queried once each, the later one first in the alphabet:
    the ranking keeps the order of first appearance. *)
Definition tie_rows : list (gmap string (jsval Z)) :=
  [ sample_row "b.com" "10.0.0.1"; sample_row "a.com" "10.0.0.1" ].

Definition sample_rows : list (gmap string (jsval Z)) :=
  [ sample_row "b.example.com" "10.0.0.1";
    sample_row "a.org" "10.0.0.1";
    sample_row "x.a.org" "10.0.0.2";
    sample_row "7" "10.0.0.2";
    sample_row "" "10.0.0.2";
    sample_row "44.8.0.10.in-addr.arpa" "10.0.0.2" ].

(** The state after the sample rows are loaded, the user has typed
    "0.0.2" and asked for ascending order by unique domains. *)
Definition sample_state : View.State :=
  {| View.analysisResults := Some (processData sample_rows);
     View.activeView := View.ips;
     View.searchTerm := "0.0.2";
     View.sortField := View.uniqueDomains;
     View.sortDirection := View.asc |}.

(** Rows of three clients: one with many queries for one domain, two
    with fewer queries for more domains, one domain queried by two of
    them and one spelt with capitals. *)
Definition view_rows : list (gmap string (jsval Z)) :=
  [ sample_row "www.example.com" "10.0.0.1";
    sample_row "mail.example.com" "10.0.0.1";
    sample_row "api.example.com" "10.0.0.1";
    sample_row "cdn.example.com" "10.0.0.1";
    sample_row "shared.net" "10.0.0.2";
    sample_row "Tracker.ADS.io" "10.0.0.2";
    sample_row "shared.net" "192.168.1.5";
    sample_row "a.other.org" "192.168.1.5";
    sample_row "b.third.org" "192.168.1.5" ].

(** The state after these rows are loaded, with the given controls. *)
Definition view_state (view : View.ActiveView) (term : string)
    (field : View.SortField) (direction : View.SortDirection) : View.State :=
  {| View.analysisResults := Some (processData view_rows);
     View.activeView := view;
     View.searchTerm := term;
     View.sortField := field;
     View.sortDirection := direction |}.

(** An export of two clients, one of them with a blocked query among
    three. *)
Definition device_rows : list Devices.NextDNSRow :=
  [ Devices.mkNextDNSRow "ads.example.com" "10.0.0.7" "Blocked";
    Devices.mkNextDNSRow "www.example.com" "10.0.0.7" "allowed";
    Devices.mkNextDNSRow "cdn.example.net" "10.0.0.7" "default";
    Devices.mkNextDNSRow "www.example.org" "10.0.0.8" "allowed" ].

(** * Properties of the string operations *)

Module JSStringFacts.
Import JSString.

Lemma app_nil_l (t : string) : "" +:+ t = t.
Proof. reflexivity. Qed.

Lemma app_cons (c : ascii) (s t : string) :
  String c s +:+ t = String c (s +:+ t).
Proof. reflexivity. Qed.


Lemma app_assoc (a b c : string) : (a +:+ b) +:+ c = a +:+ (b +:+ c).
Proof. induction a as [|x a IH]; [done | by rewrite !app_cons, IH]. Qed.

Lemma app_length (a b : string) :
  String.length (a +:+ b) = String.length a + String.length b.
Proof.
  induction a as [|x a IH]; [done |].
  rewrite app_cons. simpl. by rewrite IH.
Qed.



Lemma is_suffix_app (p s : string) : is_suffix_of s (p +:+ s).
Proof. by exists p. Qed.

Lemma split_nonempty (sep : ascii) (s : string) : split sep s ≠ [].
Proof.
  destruct s as [|c s]; simpl; [done |].
  destruct (Ascii.eqb c sep); [done |].
  by destruct (split sep s).
Qed.

Lemma split_cons (sep c : ascii) (s : string) :
  split sep (String c s) =
    if Ascii.eqb c sep then ""%string :: split sep s
    else match split sep s with
         | [] => [String c ""]
         | lbl :: more => String c lbl :: more
         end.
Proof. reflexivity. Qed.

Lemma join_cons2 (sep x y : string) (l : list string) :
  join sep (x :: y :: l) = x +:+ sep +:+ join sep (y :: l).
Proof. reflexivity. Qed.

(** Splitting and joining on the same separator gives the string back. *)
Lemma join_split (sep : ascii) (s : string) :
  join (String sep "") (split sep s) = s.
Proof.
  induction s as [|c s IH]; [done |].
  rewrite split_cons.
  pose proof (split_nonempty sep s) as Hs.
  destruct (split sep s) as [|l ls]; [done |].
  destruct (Ascii.eqb_spec c sep) as [-> | Hne].
  - by rewrite join_cons2, IH.
  - destruct ls as [|l' ls].
    + simpl in *. by rewrite IH.
    + rewrite join_cons2, app_cons. rewrite join_cons2 in IH. by rewrite IH.
Qed.

Lemma split_app_sep (sep : ascii) (p t : string) :
  split sep (p +:+ String sep t) = split sep p ++ split sep t.
Proof.
  induction p as [|c p IH].
  - rewrite app_nil_l, split_cons. by rewrite Ascii.eqb_refl.
  - rewrite app_cons, !split_cons, IH.
    destruct (Ascii.eqb c sep); [done |].
    pose proof (split_nonempty sep p) as Hp.
    by destruct (split sep p).
Qed.



Lemma substring_decompose (k : nat) (s : string) :
  k ≤ String.length s →
  s = String.substring 0 k s +:+ String.substring k (String.length s - k) s.
Proof.
  revert k. induction s as [|c s IH]; intros [|k] Hk; simpl in *;
    try lia; try done.
  - rewrite app_nil_l. f_equal. clear.
    induction s as [|d s IH]; simpl; [done | by f_equal].
  - rewrite app_cons, <- IH by lia. done.
Qed.

Lemma endsWith_spec (s suffix : string) :
  endsWith s suffix = true ↔ is_suffix_of suffix s.
Proof.
  unfold endsWith, is_suffix_of. split.
  - destruct (Nat.leb_spec (String.length suffix) (String.length s)) as [Hle | Hlt];
      [| done].
    intros Heq%String.eqb_eq.
    exists (String.substring 0 (String.length s - String.length suffix) s).
    pose proof (substring_decompose
                  (String.length s - String.length suffix) s ltac:(lia)) as Hd.
    replace (String.length s - (String.length s - String.length suffix))
      with (String.length suffix) in Hd by lia.
    by rewrite Heq in Hd.
  - intros [p ->]. rewrite app_length.
    destruct (Nat.leb_spec (String.length suffix)
                (String.length p + String.length suffix)) as [_ | Hlt]; [| lia].
    replace (String.length p + String.length suffix - String.length suffix)
      with (String.length p) by lia.
    apply String.eqb_eq. clear.
    induction p as [|c p IH]; simpl.
    + induction suffix as [|d t IH]; simpl; [done | by f_equal].
    + done.
Qed.

Lemma slice_last_app {A} (l tl : list A) :
  slice_last (length tl) (l ++ tl) = tl.
Proof.
  unfold slice_last. rewrite length_app.
  replace (length l + length tl - length tl) with (length l) by lia.
  by rewrite drop_app_length.
Qed.

Lemma truthy_nonempty (s : string) : truthy s = true ↔ s ≠ ""%string.
Proof. by destruct s. Qed.

End JSStringFacts.

(** * The domain normalizer *)

Section ExtractBaseDomain.
Import JSString JSStringFacts.

Lemma endsWith_nonempty (q suffix : string) :
  endsWith q suffix = true → suffix ≠ ""%string → q ≠ ""%string.
Proof.
  intros [p ->]%endsWith_spec Hs Hq.
  destruct p; [by rewrite app_nil_l in Hq | by rewrite app_cons in Hq].
Qed.

(** Under either reverse-DNS suffix the first return is taken. *)
Lemma extractBaseDomain_reverse (q : string) :
  endsWith q ".in-addr.arpa" = true ∨ endsWith q ".ip6.arpa" = true →
  extractBaseDomain q = Some (join "." (slice_last 2 (split "." q))).
Proof.
  intros Hends. unfold extractBaseDomain.
  assert (truthy q = true) as ->.
  { apply truthy_nonempty. destruct Hends as [He | He];
      by apply (endsWith_nonempty _ _ He). }
  destruct Hends as [-> | ->]; [done | by rewrite orb_true_r].
Qed.

(** The last two labels of a string that ends with a full stop and two
    labels free of full stops are these two. *)
Lemma last_two_labels (p a b : string) :
  split "." a = [a] → split "." b = [b] →
  join "." (slice_last 2 (split "." (p +:+ "." +:+ a +:+ "." +:+ b)))
  = a +:+ "." +:+ b.
Proof.
  intros Ha Hb.
  change ("." +:+ a +:+ "." +:+ b) with (String "." (a +:+ String "." b)).
  rewrite split_app_sep, split_app_sep, Ha, Hb.
  change ([a] ++ [b]) with [a; b].
  by replace (slice_last 2 (split "." p ++ [a; b])) with [a; b]
    by (symmetry; apply (slice_last_app _ [a; b])).
Qed.

Lemma extractBaseDomain_in_addr (q : string) :
  endsWith q ".in-addr.arpa" = true → extractBaseDomain q = Some "in-addr.arpa"%string.
Proof.
  intros He. rewrite extractBaseDomain_reverse by auto.
  apply endsWith_spec in He as [p ->].
  f_equal. exact (last_two_labels p "in-addr" "arpa" eq_refl eq_refl).
Qed.

Lemma extractBaseDomain_ip6 (q : string) :
  endsWith q ".ip6.arpa" = true → extractBaseDomain q = Some "ip6.arpa"%string.
Proof.
  intros He. rewrite extractBaseDomain_reverse by auto.
  apply endsWith_spec in He as [p ->].
  f_equal. exact (last_two_labels p "ip6" "arpa" eq_refl eq_refl).
Qed.

(** Outside the reverse-DNS suffixes, on a non-empty string. *)
Lemma extractBaseDomain_ordinary (q : string) :
  q ≠ ""%string →
  endsWith q ".in-addr.arpa" = false → endsWith q ".ip6.arpa" = false →
  extractBaseDomain q =
    if 2 <=? length (split "." q)
    then Some (join "." (slice_last 2 (split "." q)))
    else Some q.
Proof.
  intros Hq H1 H2. unfold extractBaseDomain.
  apply truthy_nonempty in Hq. by rewrite Hq, H1, H2.
Qed.

(** Whatever branch is taken, a non-empty input gives a run of its
    trailing labels. *)
Lemma extractBaseDomain_trailing_labels (q : string) :
  q ≠ ""%string →
  ∃ n, extractBaseDomain q = Some (join "." (drop n (split "." q))).
Proof.
  intros Hq. unfold extractBaseDomain.
  apply truthy_nonempty in Hq. rewrite Hq. simpl negb. cbv iota.
  destruct (endsWith q ".in-addr.arpa" || endsWith q ".ip6.arpa").
  - by eexists.
  - cbv zeta. destruct (2 <=? length (split "." q)).
    + by eexists.
    + exists 0. by rewrite drop_0, join_split.
Qed.

End ExtractBaseDomain.

(** * The stable sort *)

Section SortFacts.
Context {A : Type}.
Implicit Types (cmp : A → A → Z) (f : A → nat) (l : list A).

Lemma sort_insert_perm cmp x l : sort_insert cmp x l ≡ₚ x :: l.
Proof.
  induction l as [|y l IH]; simpl; [done |].
  destruct (cmp x y <=? 0)%Z; [done |].
  rewrite IH. apply Permutation_swap.
Qed.

Lemma js_sort_perm cmp l : js_sort cmp l ≡ₚ l.
Proof.
  induction l as [|x l IH]; simpl; [done |].
  by rewrite sort_insert_perm, IH.
Qed.

Lemma descending_le f a b : (descending f a b <=? 0)%Z = (f b <=? f a).
Proof.
  unfold descending.
  destruct (Nat.leb_spec (f b) (f a)); [apply Z.leb_le | apply Z.leb_gt]; lia.
Qed.

Lemma sort_insert_sorted f x l :
  sorted_desc f l → sorted_desc f (sort_insert (descending f) x l).
Proof.
  unfold sorted_desc. induction l as [|y l IH]; intros Hl; simpl.
  - by repeat constructor.
  - rewrite descending_le.
    apply StronglySorted_cons in Hl as [Hy Hl].
    destruct (Nat.leb_spec (f y) (f x)) as [Hle | Hlt].
    + apply StronglySorted_cons. split; [| by apply StronglySorted_cons].
      constructor; [done |].
      eapply Forall_impl; [exact Hy |]. simpl. intros z Hz. lia.
    + apply StronglySorted_cons. split; [| by apply IH].
      rewrite sort_insert_perm. constructor; [lia | done].
Qed.

Lemma js_sort_sorted f l : sorted_desc f (js_sort (descending f) l).
Proof.
  induction l as [|x l IH]; simpl; [constructor |].
  by apply sort_insert_sorted.
Qed.

(** An element moves only past elements of a strictly larger field, so
    each class of equal fields keeps its order. *)
Lemma sort_insert_ties f c x l :
  ties f c (sort_insert (descending f) x l) = ties f c (x :: l).
Proof.
  unfold ties. induction l as [|y l IH]; [done |].
  cbn [sort_insert]. rewrite descending_le.
  destruct (Nat.leb_spec (f y) (f x)) as [Hle | Hlt]; [done |].
  cbn [List.filter] in *. rewrite IH.
  destruct (Nat.eqb_spec (f x) c) as [Hx | Hx]; [| done].
  destruct (Nat.eqb_spec (f y) c) as [Hy | Hy]; [lia | done].
Qed.

Lemma js_sort_ties f c l : ties f c (js_sort (descending f) l) = ties f c l.
Proof.
  induction l as [|x l IH]; [done |].
  cbn [js_sort foldr]. fold (js_sort (descending f) l).
  rewrite sort_insert_ties. unfold ties in *. cbn [List.filter].
  by rewrite IH.
Qed.

Lemma ties_elem f c x l : x ∈ ties f c l ↔ x ∈ l ∧ f x = c.
Proof.
  unfold ties. rewrite !list_elem_of_In, filter_In.
  by rewrite Nat.eqb_eq.
Qed.

Lemma ties_none f c l : Forall (λ a, f a ≠ c) l → ties f c l = [].
Proof.
  unfold ties. induction 1 as [|x l Hx _ IH]; simpl; [done |].
  by destruct (Nat.eqb_spec (f x) c).
Qed.

(** A list ordered by [f] is determined by its classes of equal [f]. *)
Lemma sorted_desc_unique f l1 l2 :
  sorted_desc f l1 → sorted_desc f l2 →
  (∀ c, ties f c l1 = ties f c l2) → l1 = l2.
Proof.
  unfold sorted_desc. revert l2.
  induction l1 as [|x l1 IH]; intros [|y l2] H1 H2 Hties.
  - done.
  - specialize (Hties (f y)). unfold ties in Hties. simpl in Hties.
    by rewrite Nat.eqb_refl in Hties.
  - specialize (Hties (f x)). unfold ties in Hties. simpl in Hties.
    by rewrite Nat.eqb_refl in Hties.
  - apply StronglySorted_cons in H1 as [Hx H1].
    apply StronglySorted_cons in H2 as [Hy H2].
    assert (f y ≤ f x) as Hyx.
    { assert (y ∈ x :: l1) as Hin.
      { apply (ties_elem f (f y)). rewrite Hties. apply ties_elem.
        split; [left | done]. }
      apply elem_of_cons in Hin as [-> | Hin]; [done |].
      by apply (proj1 (Forall_forall _ _) Hx). }
    assert (f x ≤ f y) as Hxy.
    { assert (x ∈ y :: l2) as Hin.
      { apply (ties_elem f (f x)). rewrite <- Hties. apply ties_elem.
        split; [left | done]. }
      apply elem_of_cons in Hin as [-> | Hin]; [done |].
      by apply (proj1 (Forall_forall _ _) Hy). }
    pose proof (Hties (f x)) as Hhead. unfold ties in Hhead. simpl in Hhead.
    rewrite Nat.eqb_refl in Hhead.
    replace (f y =? f x) with true in Hhead by (symmetry; apply Nat.eqb_eq; lia).
    injection Hhead as -> Htail.
    f_equal. apply IH; [done | done |].
    intros c. specialize (Hties c). unfold ties in *. simpl in Hties.
    destruct (f y =? c); [by injection Hties | done].
Qed.

End SortFacts.

Section InsertionSortFacts.
Context {A : Type}.
Implicit Types (f : A → nat) (l : list A).

Lemma descending_lt f a b : (descending f a b <? 0)%Z = (f b <? f a).
Proof.
  unfold descending.
  destruct (Nat.ltb_spec (f b) (f a)); [apply Z.ltb_lt | apply Z.ltb_ge]; lia.
Qed.

Lemma sort_insert_behind_perm f x l :
  sort_insert_behind (descending f) x l ≡ₚ x :: l.
Proof.
  induction l as [|y l IH]; simpl; [done |].
  destruct (descending f x y <? 0)%Z; [done |].
  rewrite IH. apply Permutation_swap.
Qed.

Lemma sort_insert_behind_sorted f x l :
  sorted_desc f l → sorted_desc f (sort_insert_behind (descending f) x l).
Proof.
  unfold sorted_desc. induction l as [|y l IH]; intros Hl; simpl.
  - by repeat constructor.
  - rewrite descending_lt.
    apply StronglySorted_cons in Hl as [Hy Hl].
    destruct (Nat.ltb_spec (f y) (f x)) as [Hlt | Hle].
    + apply StronglySorted_cons. split; [| by apply StronglySorted_cons].
      constructor; [lia |].
      eapply Forall_impl; [exact Hy |]. simpl. intros z Hz. lia.
    + apply StronglySorted_cons. split; [| by apply IH].
      rewrite sort_insert_behind_perm. constructor; [lia | done].
Qed.

(** The element ends behind its class: what stands behind it has a
    strictly smaller field. *)
Lemma sort_insert_behind_ties f c x l :
  sorted_desc f l →
  ties f c (sort_insert_behind (descending f) x l) = ties f c l ++ ties f c [x].
Proof.
  unfold sorted_desc, ties. induction l as [|y l IH]; intros Hl; [done |].
  cbn [sort_insert_behind]. rewrite descending_lt.
  apply StronglySorted_cons in Hl as [Hy Hl].
  destruct (Nat.ltb_spec (f y) (f x)) as [Hlt | Hle].
  - cbn [List.filter].
    destruct (Nat.eqb_spec (f x) c) as [Hx | Hx]; [| by rewrite app_nil_r].
    assert (List.filter (λ a, f a =? c) (y :: l) = []) as Hnone.
    { change (ties f c (y :: l) = []).
      apply ties_none. constructor; [lia |].
      eapply Forall_impl; [exact Hy |]. simpl. intros z Hz. lia. }
    cbn [List.filter] in Hnone. by rewrite Hnone.
  - cbn [List.filter] in *. rewrite (IH Hl).
    by destruct (f y =? c).
Qed.

Lemma insertion_sort_spec f l :
  sorted_desc f (insertion_sort (descending f) l)
  ∧ ∀ c, ties f c (insertion_sort (descending f) l) = ties f c l.
Proof.
  unfold insertion_sort.
  assert (∀ acc, sorted_desc f acc →
                 sorted_desc f (foldl (λ sorted x,
                                         sort_insert_behind (descending f) x sorted)
                                      acc l)
                 ∧ ∀ c, ties f c (foldl (λ sorted x,
                                           sort_insert_behind (descending f) x sorted)
                                        acc l)
                        = ties f c acc ++ ties f c l) as Hgen.
  { induction l as [|x l IH]; intros acc Hacc; simpl.
    - split; [done |]. intros c. by rewrite app_nil_r.
    - destruct (IH (sort_insert_behind (descending f) x acc)) as [Hs Ht];
        [by apply sort_insert_behind_sorted |].
      split; [done |]. intros c.
      rewrite Ht, sort_insert_behind_ties by done.
      unfold ties. cbn [List.filter].
      rewrite <- app_assoc. by destruct (f x =? c). }
  apply Hgen. constructor.
Qed.

End InsertionSortFacts.

Lemma insertion_sort_ecma : ecma_sort (@insertion_sort).
Proof. intros A f arr. apply insertion_sort_spec. Qed.

Lemma js_sort_ecma : ecma_sort (@js_sort).
Proof. intros A f arr. split; [apply js_sort_sorted | intros c; apply js_sort_ties]. Qed.

(** Two engines that both meet the guarantee sort alike. *)
Lemma ecma_sort_unique sortA sortB {A} (f : A → nat) (arr : list A) :
  ecma_sort sortA → ecma_sort sortB →
  sortA A (descending f) arr = sortB A (descending f) arr.
Proof.
  intros HA HB. destruct (HA A f arr) as [HA1 HA2], (HB A f arr) as [HB1 HB2].
  apply (sorted_desc_unique f); [done | done |].
  intros c. by rewrite HA2, HB2.
Qed.

(** * Objects and the lodash aggregators *)

Module JSObjectFacts.
Import JSObject.

Section Entries.
Context {V : Type}.
Implicit Types (o : JSObject.t V) (p : string * V).

Lemma insert_by_index_perm p (sorted : list (string * V)) :
  insert_by_index p sorted ≡ₚ p :: sorted.
Proof.
  induction sorted as [|q l IH]; simpl; [done |].
  destruct (index_of p <=? index_of q)%N; [done |].
  rewrite IH. apply Permutation_swap.
Qed.

Lemma filter_complement_perm (P : string * V → bool) (l : list (string * V)) :
  List.filter P l ++ List.filter (λ p, negb (P p)) l ≡ₚ l.
Proof.
  induction l as [|x l IH]; simpl; [done |].
  destruct (P x); simpl.
  - by rewrite IH.
  - by rewrite <- Permutation_middle, IH.
Qed.

(** [Object.entries] lists every own property exactly once. *)
Lemma entries_perm o : entries o ≡ₚ o.
Proof.
  unfold entries.
  assert (∀ l : list (string * V), foldr insert_by_index [] l ≡ₚ l) as Hsort.
  { induction l as [|x l IH]; simpl; [done |].
    by rewrite insert_by_index_perm, IH. }
  rewrite Hsort. apply filter_complement_perm.
Qed.

Lemma keys_length o : length (keys o) = length o.
Proof. unfold keys. by rewrite length_fmap, entries_perm. Qed.

Lemma entries_length o : length (entries o) = length o.
Proof. by rewrite entries_perm. Qed.

Lemma sum_entries (w : string * V → nat) o :
  sum_list_with w (entries o) = sum_list_with w o.
Proof. by rewrite entries_perm. Qed.

(** An update adds one to the total weight when the weight of a
    property grows by one and a new property weighs one. *)
Lemma upsert_weight (w : V → nat) k (f : V → V) v0 o :
  (∀ v, w (f v) = S (w v)) → w v0 = 1 →
  sum_list_with (λ p, w p.2) (upsert k f v0 o)
  = S (sum_list_with (λ p, w p.2) o).
Proof.
  intros Hf Hv0. induction o as [|[k' v] o IH]; simpl.
  - by rewrite Hv0.
  - destruct (String.eqb k' k); simpl.
    + by rewrite Hf.
    + rewrite IH. lia.
Qed.
Lemma lookup_upsert k k' (f : V → V) v0 o :
  lookup k' (upsert k f v0 o)
  = if String.eqb k k'
    then Some (match lookup k o with Some v => f v | None => v0 end)
    else lookup k' o.
Proof.
  induction o as [|[k0 v] o IH]; simpl; [done |].
  destruct (String.eqb_spec k0 k) as [-> | Hk0]; simpl.
  - by destruct (String.eqb k k').
  - rewrite IH. destruct (String.eqb_spec k0 k') as [-> | Hk0']; [| done].
    by destruct (String.eqb_spec k k').
Qed.

Lemma upsert_keys_elem k k' (f : V → V) v0 o :
  k' ∈ (upsert k f v0 o).*1 ↔ k' = k ∨ k' ∈ o.*1.
Proof.
  induction o as [|[k0 v] o IH]; simpl.
  - rewrite list_elem_of_singleton, elem_of_nil. tauto.
  - destruct (String.eqb_spec k0 k) as [-> | Hk0]; csimpl.
    + rewrite elem_of_cons. tauto.
    + rewrite !elem_of_cons, IH. tauto.
Qed.

Lemma upsert_keys_NoDup k (f : V → V) v0 o :
  NoDup o.*1 → NoDup (upsert k f v0 o).*1.
Proof.
  induction o as [|[k0 v] o IH]; simpl; intros Hnd.
  - apply NoDup_singleton.
  - apply NoDup_cons in Hnd as [Hk0 Hnd].
    destruct (String.eqb_spec k0 k) as [-> | Hne]; csimpl.
    + by apply NoDup_cons.
    + apply NoDup_cons. split; [| by apply IH].
      rewrite upsert_keys_elem. intros [-> | Hin]; [done | by destruct Hk0].
Qed.

Lemma elem_lookup k v o : NoDup o.*1 → (k, v) ∈ o → lookup k o = Some v.
Proof.
  induction o as [|[k0 v0] o IH]; csimpl; intros Hnd Hin.
  - by apply elem_of_nil in Hin.
  - apply NoDup_cons in Hnd as [Hk0 Hnd].
    apply elem_of_cons in Hin as [[= -> ->] | Hin].
    + by rewrite String.eqb_refl.
    + destruct (String.eqb_spec k0 k) as [-> | Hne]; [| by apply IH].
      destruct Hk0. apply list_elem_of_fmap. by exists (k, v).
Qed.

End Entries.

Lemma sum_list_with_fmap {A B} (w : B → nat) (g : A → B) (l : list A) :
  sum_list_with w (g <$> l) = sum_list_with (w ∘ g) l.
Proof. induction l as [|x l IH]; csimpl; [done | by rewrite IH]. Qed.

Section Aggregators.
Context {A : Type} (iteratee : A → string).

(** The groups of [_.groupBy] hold every element once. *)
Lemma groupBy_total (collection : list A) :
  sum_list_with (λ p, length p.2) (groupBy iteratee collection)
  = length collection.
Proof.
  unfold groupBy.
  assert (∀ acc : JSObject.t (list A),
            sum_list_with (λ p, length p.2)
              (foldl (λ result value,
                        upsert (iteratee value) (λ group, group ++ [value])
                               [value] result) acc collection)
            = sum_list_with (λ p, length p.2) acc + length collection) as Hgen.
  { induction collection as [|x l IH]; intros acc; simpl; [lia |].
    rewrite IH, (upsert_weight length); [lia | | done].
    intros v. rewrite length_app. simpl. lia. }
  by rewrite Hgen.
Qed.

(** The counters of [_.countBy] add up to the number of elements. *)
Lemma countBy_total (collection : list A) :
  sum_list_with snd (countBy iteratee collection) = length collection.
Proof.
  unfold countBy.
  assert (∀ acc : JSObject.t nat,
            sum_list_with snd
              (foldl (λ result value, upsert (iteratee value) S 1 result)
                     acc collection)
            = sum_list_with snd acc + length collection) as Hgen.
  { induction collection as [|x l IH]; intros acc; simpl; [lia |].
    rewrite IH.
    pose proof (upsert_weight id (iteratee x) S 1 acc
                  (λ _, eq_refl) eq_refl) as Hw.
    change (sum_list_with snd (upsert (iteratee x) S 1 acc)
            = S (sum_list_with snd acc)) in Hw.
    lia. }
  by rewrite Hgen.
Qed.
(** The state of [_.groupBy] after any number of elements. *)
Lemma groupBy_fold (acc : JSObject.t (list A)) (collection : list A) :
  let result :=
    foldl (λ result value,
             upsert (iteratee value) (λ group, group ++ [value]) [value] result)
          acc collection in
  (∀ k, default [] (lookup k result)
        = default [] (lookup k acc)
          ++ List.filter (λ x, String.eqb (iteratee x) k) collection)
  ∧ (∀ k, k ∈ result.*1 ↔ k ∈ acc.*1 ∨ k ∈ iteratee <$> collection)
  ∧ (NoDup acc.*1 → NoDup result.*1).
Proof.
  cbv zeta. revert acc.
  induction collection as [|x l IH]; intros acc; simpl.
  - split; [| split]; [| | done].
    + intros k. by rewrite app_nil_r.
    + intros k. rewrite elem_of_nil. tauto.
  - destruct (IH (upsert (iteratee x) (λ group, group ++ [x]) [x] acc))
      as (Hget & Hkeys & Hnd).
    split; [| split].
    + intros k. rewrite Hget, lookup_upsert.
      destruct (String.eqb_spec (iteratee x) k) as [<- | Hne]; [| done].
      destruct (lookup (iteratee x) acc); simpl; [by rewrite <- app_assoc | done].
    + intros k. rewrite Hkeys, upsert_keys_elem. csimpl.
      rewrite elem_of_cons. tauto.
    + intros Hacc. by apply Hnd, upsert_keys_NoDup.
Qed.

Lemma groupBy_keys_NoDup (collection : list A) :
  NoDup (groupBy iteratee collection).*1.
Proof. apply (groupBy_fold [] collection). constructor. Qed.

Lemma groupBy_keys (collection : list A) (k : string) :
  k ∈ (groupBy iteratee collection).*1 ↔ k ∈ iteratee <$> collection.
Proof.
  rewrite (proj1 (proj2 (groupBy_fold [] collection)) k).
  csimpl. rewrite elem_of_nil. tauto.
Qed.

(** A group holds the elements of its key, in their order. *)
Lemma groupBy_entry (collection : list A) (k : string) (group : list A) :
  (k, group) ∈ groupBy iteratee collection →
  group = List.filter (λ x, String.eqb (iteratee x) k) collection.
Proof.
  intros Hin%elem_lookup; [| apply groupBy_keys_NoDup].
  pose proof (proj1 (groupBy_fold [] collection) k) as Hget.
  cbv zeta in Hget. fold (groupBy iteratee collection) in Hget.
  by rewrite Hin in Hget.
Qed.

(** [_.countBy] holds the sizes of the groups of [_.groupBy]. *)
Lemma countBy_groupBy (collection : list A) :
  countBy iteratee collection
  = (λ p, (p.1, length p.2)) <$> groupBy iteratee collection.
Proof.
  unfold countBy, groupBy.
  assert (∀ acc : JSObject.t (list A),
            foldl (λ result value, upsert (iteratee value) S 1 result)
                  ((λ p, (p.1, length p.2)) <$> acc) collection
            = (λ p, (p.1, length p.2))
                <$> foldl (λ result value,
                             upsert (iteratee value) (λ group, group ++ [value])
                                    [value] result) acc collection) as Hgen.
  { induction collection as [|x l IH]; intros acc; simpl; [done |].
    rewrite <- IH. f_equal. clear.
    induction acc as [|[k0 g] acc IHacc]; csimpl; [done |].
    destruct (String.eqb k0 (iteratee x)); csimpl.
    - rewrite length_app. simpl. do 2 f_equal. lia.
    - by rewrite IHacc. }
  apply (Hgen []).
Qed.

Lemma countBy_keys_NoDup (collection : list A) :
  NoDup (countBy iteratee collection).*1.
Proof.
  rewrite countBy_groupBy, <- list_fmap_compose.
  apply (groupBy_keys_NoDup collection).
Qed.

Lemma countBy_keys (collection : list A) (k : string) :
  k ∈ (countBy iteratee collection).*1 ↔ k ∈ iteratee <$> collection.
Proof.
  rewrite countBy_groupBy, <- list_fmap_compose.
  apply (groupBy_keys collection).
Qed.

(** A counter is the number of elements of its key. *)
Lemma countBy_entry (collection : list A) (k : string) (n : nat) :
  (k, n) ∈ countBy iteratee collection →
  n = length (List.filter (λ x, String.eqb (iteratee x) k) collection).
Proof.
  rewrite countBy_groupBy.
  intros ([k' g] & [= -> ->] & Hin)%list_elem_of_fmap. simpl.
  by rewrite (groupBy_entry collection k' g Hin).
Qed.

End Aggregators.

End JSObjectFacts.

(** * The aggregation *)

Section ProcessDataFacts.
Context {Num : Type} `{JSNum Num}.
Local Abbreviation row := (gmap string (jsval Num)).
Import JSObjectFacts.

Lemma isValidRow_spec (r : row) :
  isValidRow r = true ↔
  ∃ q addr, r !! "Query Value" = Some (JSStr q)
            ∧ r !! "Client IP" = Some (JSStr addr)
            ∧ q ≠ ""%string ∧ addr ≠ ""%string.
Proof.
  unfold isValidRow, get. split.
  - intros Hv.
    destruct (r !! "Query Value") as [[| | | |q]|]; simpl in Hv;
      rewrite ?andb_false_r in Hv; try done.
    destruct (r !! "Client IP") as [[| | | |addr]|]; simpl in Hv;
      rewrite ?andb_false_r in Hv; try done.
    exists q, addr. rewrite !andb_true_r in Hv.
    apply andb_true_iff in Hv as [Hq Ha].
    by rewrite <- !JSStringFacts.truthy_nonempty.
  - intros (q & addr & -> & -> & Hq & Ha). simpl.
    apply JSStringFacts.truthy_nonempty in Hq, Ha. by rewrite Hq, Ha.
Qed.

Lemma isValidRow_missing (r : row) :
  r !! "Query Value" = None ∨ r !! "Client IP" = None → isValidRow r = false.
Proof.
  intros Hmiss. apply not_true_is_false.
  intros (q & addr & Hq & Ha & _)%isValidRow_spec.
  destruct Hmiss; congruence.
Qed.

Lemma validRows_idemp (data : list row) : validRows (validRows data) = validRows data.
Proof.
  unfold validRows. induction data as [|r data IH]; simpl; [done |].
  destruct (isValidRow r) eqn:E; simpl; [by rewrite E, IH | done].
Qed.

Lemma validRows_drop (before after : list row) (r : row) :
  isValidRow r = false → validRows (before ++ r :: after) = validRows (before ++ after).
Proof.
  intros Hr. unfold validRows. rewrite !List.filter_app. simpl. by rewrite Hr.
Qed.

(** The result is a function of the valid rows alone. *)
Lemma processData_with_valid sort (d1 d2 : list row) :
  validRows d1 = validRows d2 → processData_with sort d1 = processData_with sort d2.
Proof. intros Hv. unfold processData_with. by rewrite Hv. Qed.

Lemma domainCountsOf_perm (rows : list row) : domainCountsOf rows ≡ₚ domainEntries rows.
Proof. apply js_sort_perm. Qed.

Lemma ipCountsOf_perm (rows : list row) : ipCountsOf rows ≡ₚ ipEntries rows.
Proof. apply js_sort_perm. Qed.

Lemma domainCountsOf_length (rows : list row) :
  length (domainCountsOf rows)
  = length (JSObject.keys (countBy (property "baseDomain") rows)).
Proof.
  rewrite domainCountsOf_perm. unfold domainEntries.
  by rewrite length_fmap, entries_length, keys_length.
Qed.

Lemma ipCountsOf_length (rows : list row) :
  length (ipCountsOf rows)
  = length (JSObject.keys (countBy (property "Client IP") rows)).
Proof.
  rewrite ipCountsOf_perm. unfold ipEntries.
  by rewrite length_fmap, entries_length, keys_length.
Qed.

Lemma domainCountsOf_total (rows : list row) :
  sum_list_with DomainCount.count (domainCountsOf rows) = length rows.
Proof.
  rewrite domainCountsOf_perm. unfold domainEntries.
  rewrite sum_list_with_fmap, sum_entries.
  apply (countBy_total (property "baseDomain")).
Qed.

Lemma ipCountsOf_total (rows : list row) :
  sum_list_with IpCount.count (ipCountsOf rows) = length rows.
Proof.
  rewrite ipCountsOf_perm. unfold ipEntries.
  rewrite sum_list_with_fmap, sum_entries.
  apply (countBy_total (property "Client IP")).
Qed.

Lemma ipDomainCounts_total (data : list row) :
  sum_list_with IpEntry.totalQueries (ipDomainCounts (processData data))
  = length (enrichedRows data).
Proof.
  unfold processData, processData_with. cbn [ipDomainCounts].
  rewrite js_sort_perm, sum_list_with_fmap, sum_entries.
  apply (groupBy_total (property "Client IP")).
Qed.

Lemma domainIPCounts_total (data : list row) :
  sum_list_with DomainEntry.totalQueries (domainIPCounts (processData data))
  = length (enrichedRows data).
Proof.
  unfold processData, processData_with. cbn [domainIPCounts].
  rewrite js_sort_perm, sum_list_with_fmap, sum_entries.
  apply (groupBy_total (property "baseDomain")).
Qed.

(** The rows of the enriched data with a given client address, and with
    a given base domain. *)
Lemma ranking_counts {B : Type} (mk : string → nat → B) (key : B → string)
    (count : B → nat) (iteratee : row → string) (rows : list row) :
  (∀ k n, key (mk k n) = k) → (∀ k n, count (mk k n) = n) →
  Forall (λ e, count e
               = length (List.filter (λ r, String.eqb (iteratee r) (key e)) rows))
         (js_sort (descending count)
            ((λ p, mk p.1 p.2) <$> JSObject.entries (countBy iteratee rows)))
  ∧ NoDup (key <$> js_sort (descending count)
                     ((λ p, mk p.1 p.2) <$> JSObject.entries (countBy iteratee rows)))
  ∧ ∀ k, k ∈ key <$> js_sort (descending count)
                       ((λ p, mk p.1 p.2) <$> JSObject.entries (countBy iteratee rows))
         ↔ k ∈ iteratee <$> rows.
Proof.
  intros Hkey Hcount.
  assert (key <$> js_sort (descending count)
                    ((λ p, mk p.1 p.2) <$> JSObject.entries (countBy iteratee rows))
          ≡ₚ (countBy iteratee rows).*1) as Hkeys.
  { rewrite js_sort_perm, <- list_fmap_compose, entries_perm.
    apply reflexive_eq, list_fmap_ext. intros _ [k n] _. apply Hkey. }
  split; [| split].
  - rewrite js_sort_perm. apply Forall_fmap, Forall_forall.
    intros [k n] Hin. rewrite entries_perm in Hin. simpl.
    rewrite Hkey, Hcount. by apply countBy_entry.
  - rewrite Hkeys. apply countBy_keys_NoDup.
  - intros k. rewrite Hkeys. apply countBy_keys.
Qed.

(** Every entry of the address view is built from the rows of its
    address, and there is one entry for each address. *)
Lemma ipDomainCounts_shape (data : list row) :
  Forall (λ e,
            let rows :=
              List.filter (λ r, String.eqb (property "Client IP" r) (IpEntry.ip e))
                          (enrichedRows data) in
            IpEntry.domains e = domainCountsOf rows
            ∧ IpEntry.totalQueries e = length rows
            ∧ IpEntry.uniqueDomains e
              = length (JSObject.keys (countBy (property "baseDomain") rows)))
         (ipDomainCounts (processData data))
  ∧ NoDup (IpEntry.ip <$> ipDomainCounts (processData data))
  ∧ ∀ k, k ∈ IpEntry.ip <$> ipDomainCounts (processData data)
         ↔ k ∈ property "Client IP" <$> enrichedRows data.
Proof.
  unfold processData, processData_with. cbn [ipDomainCounts].
  fold (enrichedRows data).
  assert (∀ l : list (string * list row),
            IpEntry.ip <$> js_sort (descending IpEntry.totalQueries)
              ((λ p : string * list row,
                  IpEntry.mk p.1
                    (length (JSObject.keys (countBy (property "baseDomain") p.2)))
                    (length p.2) (domainCounts_with (@js_sort) p.2)) <$> l)
            ≡ₚ l.*1) as Hkeys.
  { intros l. rewrite js_sort_perm, <- list_fmap_compose.
    apply reflexive_eq, list_fmap_ext. by intros _ [k rows] _. }
  split; [| split].
  - rewrite js_sort_perm. apply Forall_fmap, Forall_forall.
    intros [k rows] Hin. rewrite entries_perm in Hin.
    apply groupBy_entry in Hin as ->. by cbv zeta.
  - rewrite Hkeys, entries_perm. apply groupBy_keys_NoDup.
  - intros k. rewrite Hkeys, entries_perm. apply groupBy_keys.
Qed.

(** Every entry of the domain view is built from the rows of its base
    domain, and there is one entry for each base domain. *)
Lemma domainIPCounts_shape (data : list row) :
  Forall (λ e,
            let rows :=
              List.filter (λ r, String.eqb (property "baseDomain" r)
                                           (DomainEntry.domain e))
                          (enrichedRows data) in
            DomainEntry.ips e = ipCountsOf rows
            ∧ DomainEntry.totalQueries e = length rows
            ∧ DomainEntry.uniqueIPs e
              = length (JSObject.keys (countBy (property "Client IP") rows)))
         (domainIPCounts (processData data))
  ∧ NoDup (DomainEntry.domain <$> domainIPCounts (processData data))
  ∧ ∀ k, k ∈ DomainEntry.domain <$> domainIPCounts (processData data)
         ↔ k ∈ property "baseDomain" <$> enrichedRows data.
Proof.
  unfold processData, processData_with. cbn [domainIPCounts].
  fold (enrichedRows data).
  assert (∀ l : list (string * list row),
            DomainEntry.domain <$> js_sort (descending DomainEntry.totalQueries)
              ((λ p : string * list row,
                  DomainEntry.mk p.1
                    (length (JSObject.keys (countBy (property "Client IP") p.2)))
                    (length p.2) (ipCounts_with (@js_sort) p.2)) <$> l)
            ≡ₚ l.*1) as Hkeys.
  { intros l. rewrite js_sort_perm, <- list_fmap_compose.
    apply reflexive_eq, list_fmap_ext. by intros _ [k rows] _. }
  split; [| split].
  - rewrite js_sort_perm. apply Forall_fmap, Forall_forall.
    intros [k rows] Hin. rewrite entries_perm in Hin.
    apply groupBy_entry in Hin as ->. by cbv zeta.
  - rewrite Hkeys, entries_perm. apply groupBy_keys_NoDup.
  - intros k. rewrite Hkeys, entries_perm. apply groupBy_keys.
Qed.

(** The enrichment leaves the other columns as they are, and a valid row
    has its client address and its base domain as keys. *)
Lemma property_enrich (prop : string) (r : row) :
  prop ≠ "baseDomain"%string → property prop (enrich r) = property prop r.
Proof.
  intros Hne. unfold property, get, enrich. by rewrite lookup_insert_ne.
Qed.

Lemma property_valid (r : row) :
  isValidRow r = true →
  ∃ q addr base,
    r !! "Query Value" = Some (JSStr q)
    ∧ extractBaseDomain q = Some base
    ∧ property "Client IP" (enrich r) = addr ∧ addr ≠ ""%string
    ∧ property "baseDomain" (enrich r) = base.
Proof.
  intros (q & addr & Hq & Haddr & Hqne & Hane)%isValidRow_spec.
  destruct (extractBaseDomain_trailing_labels q Hqne) as [n Hbase].
  exists q, addr, (JSString.join "." (drop n (JSString.split "." q))).
  split; [done |]. split; [done |].
  unfold property, get, enrich.
  rewrite lookup_insert_ne by done. rewrite lookup_insert_eq.
  unfold get. rewrite Hq, Haddr. simpl. by rewrite Hbase.
Qed.

Lemma filter_fmap_length {A B} (P : B → bool) (g : A → B) (l : list A) :
  length (List.filter P (g <$> l)) = length (List.filter (λ x, P (g x)) l).
Proof.
  induction l as [|x l IH]; csimpl; [done |].
  destruct (P (g x)); csimpl; by rewrite IH.
Qed.

Lemma enriched_client_ips (data : list row) :
  property "Client IP" <$> enrichedRows data
  = property "Client IP" <$> validRows data.
Proof.
  unfold enrichedRows. rewrite <- list_fmap_compose.
  apply list_fmap_ext. intros _ r _. by apply property_enrich.
Qed.

Lemma enriched_client_ip_count (data : list row) (addr : string) :
  length (List.filter (λ r, String.eqb (property "Client IP" r) addr)
                      (enrichedRows data))
  = length (List.filter (λ r, String.eqb (property "Client IP" r) addr)
                        (validRows data)).
Proof.
  unfold enrichedRows. rewrite filter_fmap_length.
  f_equal. apply List.filter_ext. intros r. by rewrite property_enrich.
Qed.

End ProcessDataFacts.

(** * The device table *)

Module DevicesFacts.
Import Devices.

Lemma percentage_zero (b : nat) : percentage b 0 = 0%Q.
Proof. reflexivity. Qed.

Lemma percentage_nonzero (b q : nat) :
  q ≠ 0 →
  percentage b q
  = (inject_Z (Z.of_nat b) / inject_Z (Z.of_nat q) * 100)%Q.
Proof. intros Hq. unfold percentage. by destruct (Nat.eqb_spec q 0). Qed.

Lemma percentage_bounds (b q : nat) :
  b ≤ q → (0 <= percentage b q)%Q ∧ (percentage b q <= 100)%Q.
Proof.
  intros Hbq. unfold percentage.
  destruct (Nat.eqb_spec q 0) as [-> | Hq]; [split; lra |].
  assert (0 < inject_Z (Z.of_nat q))%Q as Hpos.
  { change 0%Q with (inject_Z 0). rewrite <- Zlt_Qlt. lia. }
  assert (0 <= inject_Z (Z.of_nat b) / inject_Z (Z.of_nat q))%Q as Hlo.
  { apply Qle_shift_div_l; [done |]. rewrite Qmult_0_l.
    change 0%Q with (inject_Z 0). rewrite <- Zle_Qle. lia. }
  assert (inject_Z (Z.of_nat b) / inject_Z (Z.of_nat q) <= 1)%Q as Hhi.
  { apply Qle_shift_div_r; [done |]. rewrite Qmult_1_l.
    rewrite <- Zle_Qle. lia. }
  split; lra.
Qed.

Lemma filter_length_le {A} (P : A → bool) (l : list A) :
  length (List.filter P l) ≤ length l.
Proof.
  induction l as [|x l IH]; simpl; [done |].
  destruct (P x); simpl; lia.
Qed.

(** The division faults exactly on a zero divisor. *)
Lemma divide_zero (x : Q) : divide x 0 = None.
Proof. reflexivity. Qed.

Lemma divide_count (x : Q) (q : nat) :
  q ≠ 0 →
  divide x (inject_Z (Z.of_nat q)) = Some (x / inject_Z (Z.of_nat q))%Q.
Proof.
  intros Hq. unfold divide.
  destruct (Qeq_bool (inject_Z (Z.of_nat q)) 0) eqn:E; [| done].
  apply Qeq_bool_iff in E. unfold Qeq in E. simpl in E. lia.
Qed.

(** Behind the guard the division never faults, and the computation
    gives the percentage. *)
Lemma percentage_checked_total (b q : nat) :
  percentage_checked b q = Some (percentage b q).
Proof.
  unfold percentage_checked, percentage.
  destruct (Nat.eqb_spec q 0) as [-> | Hq]; [done |].
  by rewrite divide_count.
Qed.

(** Without the guard it would fault on a total of 0. *)
Lemma unguarded_faults (b : nat) :
  (λ ratio, ratio * 100)%Q
    <$> divide (inject_Z (Z.of_nat b)) (inject_Z (Z.of_nat 0)) = None.
Proof. reflexivity. Qed.

Lemma filter_client_ip_elem (records : list LogRecord) (addr : string) :
  addr ∈ client_ip <$> records ↔
  1 ≤ length (List.filter (λ r, String.eqb (client_ip r) addr) records).
Proof.
  induction records as [|r records IH]; csimpl.
  - rewrite elem_of_nil. lia.
  - rewrite elem_of_cons, IH.
    destruct (String.eqb_spec (client_ip r) addr) as [-> | Hne]; simpl.
    + split; [lia | by left].
    + split; [intros [-> | Hin]; [done | lia] | by right].
Qed.

(** A device of the table has at least one query; the row built for an
    address without records has none. *)
Lemma device_query_count (records : list LogRecord) (addr : string) :
  (addr ∈ client_ip <$> records → 1 ≤ query_count (device_of records addr))
  ∧ (addr ∉ client_ip <$> records → query_count (device_of records addr) = 0).
Proof.
  unfold device_of. cbn [query_count].
  pose proof (filter_client_ip_elem records addr) as Hiff.
  split; [by intros ?%Hiff |].
  intros Hnot.
  destruct (length (List.filter (λ r, String.eqb (client_ip r) addr) records));
    [done |].
  destruct Hnot. apply Hiff. lia.
Qed.

Lemma blocked_le_queries (records : list LogRecord) (addr : string) :
  blocked_count (device_of records addr) ≤ query_count (device_of records addr).
Proof. apply filter_length_le. Qed.

Lemma filter_filter {A} (P Q : A → bool) (l : list A) :
  List.filter P (List.filter Q l) = List.filter (λ x, Q x && P x) l.
Proof.
  induction l as [|x l IH]; simpl; [done |].
  destruct (Q x); simpl; [| done].
  destruct (P x); by rewrite IH.
Qed.

Lemma indicator_sum (k : string) (ks : list string) :
  NoDup ks → k ∈ ks →
  sum_list_with (λ k', if String.eqb k k' then 1 else 0) ks = 1.
Proof.
  induction ks as [|k0 ks IH]; intros Hnd Hin; [by apply elem_of_nil in Hin |].
  apply NoDup_cons in Hnd as [Hk0 Hnd]. simpl.
  destruct (String.eqb_spec k k0) as [-> | Hne].
  - assert (sum_list_with (λ k', if String.eqb k0 k' then 1 else 0) ks = 0) as ->; [| done].
    clear IH Hin Hnd. induction ks as [|k1 ks IH]; simpl; [done |].
    apply not_elem_of_cons in Hk0 as [Hne Hk0].
    destruct (String.eqb_spec k0 k1); [done | by rewrite IH].
  - apply elem_of_cons in Hin as [-> | Hin]; [done | by rewrite IH].
Qed.

(** Counting the elements of each key of a duplicate-free list of keys
    that covers them counts every element once. *)
Lemma count_by_key {A} (key : A → string) (ks : list string) (l : list A) :
  NoDup ks → (∀ x, x ∈ l → key x ∈ ks) →
  sum_list_with (λ k, length (List.filter (λ x, String.eqb (key x) k) l)) ks
  = length l.
Proof.
  intros Hnd. induction l as [|x l IH]; intros Hcover.
  - clear. induction ks as [|k ks IH]; simpl in *; [done | by rewrite IH].
  - assert (∀ ks' : list string,
              sum_list_with
                (λ k, length (List.filter (λ y, String.eqb (key y) k) (x :: l))) ks'
              = sum_list_with (λ k', if String.eqb (key x) k' then 1 else 0) ks'
                + sum_list_with
                    (λ k, length (List.filter (λ y, String.eqb (key y) k) l)) ks')
      as Hsplit.
    { induction ks' as [|k ks' IHks]; simpl; [done |].
      simpl in IHks. rewrite IHks.
      destruct (String.eqb (key x) k); simpl; lia. }
    rewrite Hsplit, indicator_sum, IH; [done | | done |].
    + intros y Hy. apply Hcover. by right.
    + apply Hcover. by left.
Qed.

(** The query counts of the devices add up to the total query count. *)
Lemma devices_total (records : list LogRecord) :
  sum_list_with query_count (devices records) = total_queries records.
Proof.
  unfold devices, total_queries.
  rewrite JSObjectFacts.sum_list_with_fmap.
  apply (count_by_key client_ip).
  - apply NoDup_remove_dups.
  - intros r Hr. apply elem_of_remove_dups. by apply list_elem_of_fmap_2.
Qed.

Section Folding.
Variable vocabulary : string → Status.

Lemma fold_status_case (a b : string) :
  lower a = lower b → fold_status vocabulary a = fold_status vocabulary b.
Proof. unfold fold_status. by intros ->. Qed.

Lemma nextdns_record_case (a b : NextDNSRow) :
  same_up_to_status_case a b →
  nextdns_record vocabulary a = nextdns_record vocabulary b.
Proof.
  intros (Hd & Hi & Hs). unfold nextdns_record, fold_status.
  by rewrite Hd, Hi, Hs.
Qed.

Lemma nextdns_records_case (rows rows' : list NextDNSRow) :
  Forall2 same_up_to_status_case rows rows' →
  nextdns_records vocabulary rows = nextdns_records vocabulary rows'.
Proof.
  unfold nextdns_records. induction 1 as [|a b l l' Hab _ IH]; [done |].
  csimpl. by rewrite (nextdns_record_case a b), IH.
Qed.

(** Counting over the records is counting over the rows that yield
    them. *)
Lemma count_records (P : LogRecord → bool) (rows : list NextDNSRow) :
  length (List.filter P (nextdns_records vocabulary rows))
  = length (List.filter
              (λ r, match nextdns_record vocabulary r with
                    | Some rec => P rec
                    | None => false
                    end) rows).
Proof.
  unfold nextdns_records. induction rows as [|r rows IH]; csimpl; [done |].
  destruct (nextdns_record vocabulary r) as [rec|]; csimpl; [| done].
  destruct (P rec); csimpl; by rewrite IH.
Qed.

Lemma blocked_count_rows (rows : list NextDNSRow) (addr : string) :
  blocked_count (device_of (nextdns_records vocabulary rows) addr)
  = length (List.filter
              (λ r, counted_for addr r
                    && is_blocked (fold_status vocabulary (row_status r)))
              rows).
Proof.
  unfold device_of. cbn [blocked_count].
  rewrite filter_filter, count_records.
  f_equal. apply List.filter_ext. intros r.
  unfold nextdns_record, counted_for.
  by destruct (JSString.truthy (row_domain r) && JSString.truthy (row_client_ip r)).
Qed.
End Folding.

End DevicesFacts.

(** * The claims *)

Section Claims.
Context {Num : Type} `{JSNum Num}.
Local Abbreviation row := (gmap string (jsval Num)).
Import JSString JSStringFacts JSObjectFacts Devices DevicesFacts.

(** C1.  With the status column folded case-insensitively into the
    canonical enum (the spelling "blocked" being read as blocked), the
    spellings "Blocked", "blocked" and "BLOCKED" all become the blocked
    state; two exports that differ only in the case of their status
    column give the same device table; and the blocked count of every
    device is the number of its rows whose folded status is blocked. *)
Theorem nextdns_status_folded_before_counting (vocabulary : string → Status) :
  vocabulary "blocked" = blocked →
  (fold_status vocabulary "Blocked" = blocked
   ∧ fold_status vocabulary "blocked" = blocked
   ∧ fold_status vocabulary "BLOCKED" = blocked)
  ∧ (∀ rows rows' : list NextDNSRow,
       Forall2 same_up_to_status_case rows rows' →
       devices (nextdns_records vocabulary rows)
       = devices (nextdns_records vocabulary rows'))
  ∧ (∀ rows : list NextDNSRow,
       Forall (λ d, blocked_count d
                    = length (List.filter
                                (λ r, counted_for (ip d) r
                                      && is_blocked (fold_status vocabulary (row_status r)))
                                rows))
              (devices (nextdns_records vocabulary rows))).
Proof.
  intros Hblocked. split; [| split].
  - by unfold fold_status; cbn [lower]; vm_compute lower_char; rewrite Hblocked.
  - intros rows rows' Hcase. by rewrite (nextdns_records_case _ rows rows').
  - intros rows. unfold devices. apply Forall_fmap, Forall_forall.
    intros addr _. apply blocked_count_rows.
Qed.

(** C2 (amended).  For every query string that ends with
    ".in-addr.arpa" or ".ip6.arpa" the normalizer returns the last two
    labels of the string, which are those of the zone, "in-addr.arpa"
    or "ip6.arpa"; in particular "44.8.0.10.in-addr.arpa" is normalized
    to "in-addr.arpa". *)
Theorem extractBaseDomain_reverse_dns_labels :
  (∀ q : string,
     endsWith q ".in-addr.arpa" = true ∨ endsWith q ".ip6.arpa" = true →
     extractBaseDomain q = Some (join "." (slice_last 2 (split "." q))))
  ∧ (∀ q : string,
       endsWith q ".in-addr.arpa" = true →
       extractBaseDomain q = Some "in-addr.arpa"%string)
  ∧ (∀ q : string,
       endsWith q ".ip6.arpa" = true →
       extractBaseDomain q = Some "ip6.arpa"%string)
  ∧ extractBaseDomain "44.8.0.10.in-addr.arpa" = Some "in-addr.arpa"%string.
Proof.
  split; [exact extractBaseDomain_reverse |].
  split; [exact extractBaseDomain_in_addr |].
  split; [exact extractBaseDomain_ip6 | reflexivity].
Qed.

(** C3.  The result has one per-address entry for each distinct client
    address of the valid rows; the total of an entry is the number of
    valid rows with its address; and these totals add up to the total
    number of records of the summary, the number of valid rows.  The
    counts of the top-address list add up to it as well. *)
Theorem device_query_counts_sum_to_total (data : list row) :
  let r := processData data in
  sum_list_with IpEntry.totalQueries (ipDomainCounts r)
  = Summary.totalRecords (summary r)
  ∧ Summary.totalRecords (summary r) = length (validRows data)
  ∧ NoDup (IpEntry.ip <$> ipDomainCounts r)
  ∧ (∀ addr, addr ∈ IpEntry.ip <$> ipDomainCounts r
             ↔ addr ∈ property "Client IP" <$> validRows data)
  ∧ Forall (λ e, IpEntry.totalQueries e
                 = length (List.filter
                             (λ row, String.eqb (property "Client IP" row)
                                                (IpEntry.ip e))
                             (validRows data)))
           (ipDomainCounts r)
  ∧ sum_list_with IpCount.count (topIPs r) = Summary.totalRecords (summary r).
Proof.
  cbv zeta.
  destruct (ipDomainCounts_shape data) as (Hshape & Hnodup & Hkeys).
  assert (Summary.totalRecords (summary (processData data))
          = length (enrichedRows data)) as Htotal by reflexivity.
  split; [by rewrite Htotal, ipDomainCounts_total |].
  split; [rewrite Htotal; unfold enrichedRows; by rewrite length_fmap |].
  split; [done |].
  split; [intros addr; by rewrite Hkeys, enriched_client_ips |].
  split.
  - eapply Forall_impl; [exact Hshape |].
    intros e (_ & -> & _). apply enriched_client_ip_count.
  - rewrite Htotal. apply (ipCountsOf_total (enrichedRows data)).
Qed.

(** C4.  A row is kept exactly when its query value and its client
    address are both present as non-empty strings; a row that lacks
    either is dropped; and the result is that of the kept rows alone:
    the total is their number, every count of the top lists is a number
    of kept rows, and a dropped row, wherever it stands in the batch,
    leaves the result of the other rows unchanged. *)
Theorem invalid_rows_dropped :
  (∀ r : row,
     isValidRow r = true ↔
     ∃ q addr, r !! "Query Value" = Some (JSStr q)
               ∧ r !! "Client IP" = Some (JSStr addr)
               ∧ q ≠ ""%string ∧ addr ≠ ""%string)
  ∧ (∀ r : row,
       r !! "Query Value" = None ∨ r !! "Client IP" = None →
       isValidRow r = false)
  ∧ (∀ data : list row, processData data = processData (validRows data))
  ∧ (∀ (before after : list row) (r : row),
       isValidRow r = false →
       processData (before ++ r :: after) = processData (before ++ after))
  ∧ (∀ data : list row,
       Summary.totalRecords (summary (processData data)) = length (validRows data))
  ∧ (∀ data : list row,
       Forall (λ e, IpCount.count e
                    = length (List.filter
                                (λ r, String.eqb (property "Client IP" r)
                                                 (IpCount.ip e))
                                (validRows data)))
              (topIPs (processData data)))
  ∧ (∀ data : list row,
       Forall (λ e, DomainCount.count e
                    = length (List.filter
                                (λ r, String.eqb (property "baseDomain" (enrich r))
                                                 (DomainCount.domain e))
                                (validRows data)))
              (topDomains (processData data))).
Proof.
  split; [exact isValidRow_spec |].
  split; [exact isValidRow_missing |].
  split; [| split; [| split; [| split]]].
  - intros data. apply processData_with_valid. by rewrite validRows_idemp.
  - intros before after r Hr. by apply processData_with_valid, validRows_drop.
  - intros data. unfold processData, processData_with.
    cbn [summary Summary.totalRecords]. by rewrite length_fmap.
  - intros data.
    pose proof (proj1 (ranking_counts IpCount.mk IpCount.ip IpCount.count
                         (property "Client IP") (enrichedRows data)
                         (λ _ _, eq_refl) (λ _ _, eq_refl))) as Hcounts.
    eapply Forall_impl; [exact Hcounts |].
    intros e ->. apply enriched_client_ip_count.
  - intros data.
    pose proof (proj1 (ranking_counts DomainCount.mk DomainCount.domain
                         DomainCount.count
                         (property "baseDomain") (enrichedRows data)
                         (λ _ _, eq_refl) (λ _ _, eq_refl))) as Hcounts.
    eapply Forall_impl; [exact Hcounts |].
    intros e ->. unfold enrichedRows. apply filter_fmap_length.
Qed.

(** C5 (amended).  Every ranking of the result (the top domains, the
    top addresses, the domains of each address, the addresses of each
    domain) is sorted descending by count, and entries of equal count
    keep the order in which [Object.entries] lists the keys of the
    counting object. *)
Theorem rankings_sorted_by_count (data : list row) :
  let r := processData data in
  (sorted_desc DomainCount.count (topDomains r)
   ∧ ∀ c, ties DomainCount.count c (topDomains r)
          = ties DomainCount.count c (domainEntries (enrichedRows data)))
  ∧ (sorted_desc IpCount.count (topIPs r)
     ∧ ∀ c, ties IpCount.count c (topIPs r)
            = ties IpCount.count c (ipEntries (enrichedRows data)))
  ∧ Forall (λ e,
              sorted_desc DomainCount.count (IpEntry.domains e)
              ∧ ∀ c, ties DomainCount.count c (IpEntry.domains e)
                     = ties DomainCount.count c
                         (domainEntries
                            (List.filter
                               (λ row, String.eqb (property "Client IP" row)
                                                  (IpEntry.ip e))
                               (enrichedRows data))))
           (ipDomainCounts r)
  ∧ Forall (λ e,
              sorted_desc IpCount.count (DomainEntry.ips e)
              ∧ ∀ c, ties IpCount.count c (DomainEntry.ips e)
                     = ties IpCount.count c
                         (ipEntries
                            (List.filter
                               (λ row, String.eqb (property "baseDomain" row)
                                                  (DomainEntry.domain e))
                               (enrichedRows data))))
           (domainIPCounts r).
Proof.
  cbv zeta. repeat split.
  - apply js_sort_sorted.
  - intros c. apply js_sort_ties.
  - apply js_sort_sorted.
  - intros c. apply js_sort_ties.
  - eapply Forall_impl; [apply ipDomainCounts_shape |].
    intros e (-> & _). split; [apply js_sort_sorted |].
    intros c. apply js_sort_ties.
  - eapply Forall_impl; [apply domainIPCounts_shape |].
    intros e (-> & _). split; [apply js_sort_sorted |].
    intros c. apply js_sort_ties.
Qed.

(** C6.  For every query string that ends in neither reverse-DNS
    suffix, the normalizer splits on the full stop and returns the last
    two labels when there are at least two, and the input unchanged
    otherwise; "a.b.example.com" gives "example.com" and "localhost"
    gives "localhost".  A query string is not empty: the empty string is
    no query, it leaves at the guard before the split and [processData]
    never passes it. *)
Theorem extractBaseDomain_ordinary_labels :
  (∀ q : string,
     q ≠ ""%string →
     endsWith q ".in-addr.arpa" = false → endsWith q ".ip6.arpa" = false →
     (2 ≤ length (split "." q) →
      extractBaseDomain q = Some (join "." (slice_last 2 (split "." q))))
     ∧ (length (split "." q) < 2 → extractBaseDomain q = Some q))
  ∧ extractBaseDomain "a.b.example.com" = Some "example.com"%string
  ∧ extractBaseDomain "localhost" = Some "localhost"%string.
Proof.
  split; [| by split].
  intros q Hq H1 H2. rewrite (extractBaseDomain_ordinary q Hq H1 H2).
  split; intros Hlen.
  - by destruct (Nat.leb_spec 2 (length (split "." q))); [| lia].
  - by destruct (Nat.leb_spec 2 (length (split "." q))); [lia |].
Qed.

(** C7.  The result does not depend on how the engine sorts: any two
    sorts that meet the guarantee of the language (ordered by the
    comparator, equal elements in their original order) give the same
    result on the same input, so any two runs on one input agree. *)
Theorem processData_deterministic
    (sortA sortB : ∀ A : Type, (A → A → Z) → list A → list A) (data : list row) :
  ecma_sort sortA → ecma_sort sortB →
  processData_with sortA data = processData_with sortB data.
Proof.
  intros HA HB. unfold processData_with.
  assert (∀ rows : list row, domainCounts_with sortA rows = domainCounts_with sortB rows)
    as Hdom by (intros; by apply ecma_sort_unique).
  assert (∀ rows : list row, ipCounts_with sortA rows = ipCounts_with sortB rows)
    as Hip by (intros; by apply ecma_sort_unique).
  cbv zeta. rewrite !Hdom, !Hip.
  rewrite (ecma_sort_unique sortA sortB IpEntry.totalQueries) by done.
  rewrite (ecma_sort_unique sortA sortB DomainEntry.totalQueries) by done.
  f_equal.
  - f_equal. apply list_fmap_ext. intros _ p _. by rewrite Hdom.
  - f_equal. apply list_fmap_ext. intros _ p _. by rewrite Hip.
Qed.

(** C8.  The percentage of a device is computed behind the test on the
    query count, so the division, which faults on a zero divisor, is
    never reached with one: for all counts the computation returns a
    value, which is 0 when the query count is 0 (where the unguarded
    division would fault) and [blocked_count / query_count * 100]
    otherwise, and lies between 0 and 100 when the blocked count does not
    exceed the query count.  The row built for an address without records
    has query count 0 and percentage 0.  Every device of the table has at
    least one query and at most as many blocked ones, and its percentage
    is that value: [blocked_count / query_count * 100], between 0 and
    100. *)
Theorem blocked_percentage_bounds :
  (∀ b q : nat, percentage_checked b q = Some (percentage b q))
  ∧ (∀ b : nat,
       percentage b 0 = 0%Q
       ∧ (λ ratio, ratio * 100)%Q
           <$> divide (inject_Z (Z.of_nat b)) (inject_Z (Z.of_nat 0)) = None)
  ∧ (∀ b q : nat,
       q ≠ 0 →
       percentage b q
       = (inject_Z (Z.of_nat b) / inject_Z (Z.of_nat q) * 100)%Q)
  ∧ (∀ b q : nat,
       b ≤ q → (0 <= percentage b q)%Q ∧ (percentage b q <= 100)%Q)
  ∧ (∀ (records : list LogRecord) (addr : string),
       addr ∉ client_ip <$> records →
       query_count (device_of records addr) = 0
       ∧ percentage_checked (blocked_count (device_of records addr))
                            (query_count (device_of records addr))
         = Some 0%Q
       ∧ blocked_percentage (device_of records addr) = 0%Q)
  ∧ (∀ records : list LogRecord,
       Forall (λ d,
                 1 ≤ query_count d
                 ∧ blocked_count d ≤ query_count d
                 ∧ percentage_checked (blocked_count d) (query_count d)
                   = Some (blocked_percentage d)
                 ∧ blocked_percentage d
                   = (inject_Z (Z.of_nat (blocked_count d))
                      / inject_Z (Z.of_nat (query_count d)) * 100)%Q
                 ∧ (0 <= blocked_percentage d)%Q
                 ∧ (blocked_percentage d <= 100)%Q)
              (devices records)).
Proof.
  split; [exact percentage_checked_total |].
  split; [intros b; split; [apply percentage_zero | apply unguarded_faults] |].
  split; [exact percentage_nonzero |].
  split; [exact percentage_bounds |].
  split.
  - intros records addr Hnot.
    pose proof (proj2 (device_query_count records addr) Hnot) as Hzero.
    assert (blocked_count (device_of records addr) = 0) as Hblocked.
    { pose proof (blocked_le_queries records addr). lia. }
    split; [done |].
    change (blocked_percentage (device_of records addr))
      with (percentage (blocked_count (device_of records addr))
                       (query_count (device_of records addr))).
    by rewrite Hzero, Hblocked.
  - intros records. unfold devices. apply Forall_fmap, Forall_forall.
    intros addr Haddr. apply (proj1 (elem_of_remove_dups _ _)) in Haddr.
    pose proof (blocked_le_queries records addr) as Hle.
    pose proof (proj1 (device_query_count records addr) Haddr) as Hpos.
    unfold compose. cbv beta.
    change (blocked_percentage (device_of records addr))
      with (percentage (blocked_count (device_of records addr))
                       (query_count (device_of records addr))).
    split; [done |]. split; [done |].
    split; [apply percentage_checked_total |].
    split; [apply percentage_nonzero; lia |].
    by apply percentage_bounds.
Qed.

(** C9.  For every entry of the address view, the unique-domain count
    is the length of its domain list and the counts of that list add up
    to its total; likewise for the addresses of every entry of the
    domain view. *)
Theorem relationship_counts_consistent (data : list row) :
  Forall (λ e, IpEntry.uniqueDomains e = length (IpEntry.domains e)
               ∧ sum_list_with DomainCount.count (IpEntry.domains e)
                 = IpEntry.totalQueries e)
         (ipDomainCounts (processData data))
  ∧ Forall (λ e, DomainEntry.uniqueIPs e = length (DomainEntry.ips e)
                 ∧ sum_list_with IpCount.count (DomainEntry.ips e)
                   = DomainEntry.totalQueries e)
           (domainIPCounts (processData data)).
Proof.
  split.
  - eapply Forall_impl; [apply ipDomainCounts_shape |].
    intros e (-> & -> & ->).
    by rewrite domainCountsOf_length, domainCountsOf_total.
  - eapply Forall_impl; [apply domainIPCounts_shape |].
    intros e (-> & -> & ->).
    by rewrite ipCountsOf_length, ipCountsOf_total.
Qed.


End Claims.

(** * The claims on sample inputs *)

Section Samples.
Import JSString Devices.

Example extractBaseDomain_samples :
  extractBaseDomain "a.b.example.com" = Some "example.com"%string
  ∧ extractBaseDomain "localhost" = Some "localhost"%string
  ∧ extractBaseDomain "44.8.0.10.in-addr.arpa" = Some "in-addr.arpa"%string
  ∧ extractBaseDomain "example.com." = Some "com."%string
  ∧ extractBaseDomain "" = None.
Proof. repeat split. Qed.

(** The row with the empty query value is dropped; the key "7" is an
    array index and is listed first among the keys of equal count. *)
Example processData_sample_rows :
  processData sample_rows
  = {| summary :=
         {| Summary.totalRecords := 5;
            Summary.uniqueDomains := 4;
            Summary.uniqueIPs := 2;
            Summary.queryTypes := [ QueryType.mk "undefined" 5 ] |};
       topDomains :=
         [ DomainCount.mk "a.org" 2; DomainCount.mk "7" 1;
           DomainCount.mk "example.com" 1; DomainCount.mk "in-addr.arpa" 1 ];
       topIPs := [ IpCount.mk "10.0.0.2" 3; IpCount.mk "10.0.0.1" 2 ];
       ipDomainCounts :=
         [ IpEntry.mk "10.0.0.2" 3 3
             [ DomainCount.mk "7" 1; DomainCount.mk "a.org" 1;
               DomainCount.mk "in-addr.arpa" 1 ];
           IpEntry.mk "10.0.0.1" 2 2
             [ DomainCount.mk "example.com" 1; DomainCount.mk "a.org" 1 ] ];
       domainIPCounts :=
         [ DomainEntry.mk "a.org" 2 2
             [ IpCount.mk "10.0.0.1" 1; IpCount.mk "10.0.0.2" 1 ];
           DomainEntry.mk "7" 1 1 [ IpCount.mk "10.0.0.2" 1 ];
           DomainEntry.mk "example.com" 1 1 [ IpCount.mk "10.0.0.1" 1 ];
           DomainEntry.mk "in-addr.arpa" 1 1 [ IpCount.mk "10.0.0.2" 1 ] ] |}.
Proof. vm_compute. reflexivity. Qed.

Example devices_mixed_case_rows :
  devices (nextdns_records sample_vocabulary mixed_case_rows)
  = [ {| ip := "10.0.0.7"; query_count := 3; unique_domains := 2;
         blocked_count := 3; blocked_percentage := percentage 3 3 |} ].
Proof. reflexivity. Qed.

Lemma nextdns_status_folded_before_counting_witness :
  sample_vocabulary "blocked" = blocked
  ∧ Forall2 same_up_to_status_case mixed_case_rows lower_case_rows
  ∧ devices (nextdns_records sample_vocabulary mixed_case_rows)
    = devices (nextdns_records sample_vocabulary lower_case_rows)
  ∧ blocked_count <$> devices (nextdns_records sample_vocabulary mixed_case_rows)
    = [3].
Proof.
  assert (Forall2 same_up_to_status_case mixed_case_rows lower_case_rows) as Hcase
    by (repeat constructor).
  split; [reflexivity |]. split; [exact Hcase |]. split; [| reflexivity].
  exact (proj1 (proj2 (nextdns_status_folded_before_counting
                         sample_vocabulary eq_refl))
               mixed_case_rows lower_case_rows Hcase).
Defined.

Lemma blocked_percentage_bounds_witness :
  let records := nextdns_records sample_vocabulary device_rows in
  (query_count <$> devices records = [3; 1]
   ∧ blocked_count <$> devices records = [1; 0])
  ∧ percentage_checked 1 3 = Some (percentage 1 3)
  ∧ (0 <= percentage 1 3)%Q ∧ (percentage 1 3 <= 100)%Q
  ∧ percentage_checked 0 0 = Some 0%Q
  ∧ (("10.0.0.9"%string ∉ client_ip <$> records)
     ∧ query_count (device_of records "10.0.0.9") = 0
     ∧ blocked_percentage (device_of records "10.0.0.9") = 0%Q)
  ∧ Forall (λ d, 1 ≤ query_count d
                 ∧ percentage_checked (blocked_count d) (query_count d)
                   = Some (blocked_percentage d)
                 ∧ (0 <= blocked_percentage d)%Q
                 ∧ (blocked_percentage d <= 100)%Q)
           (devices records).
Proof.
  cbv zeta.
  destruct blocked_percentage_bounds
    as (Htotal & Hzero & _ & Hbounds & Habsent & Hdevices).
  assert ("10.0.0.9"%string
          ∉ client_ip <$> nextdns_records sample_vocabulary device_rows) as Hnot.
  { intros Hin. apply list_elem_of_In in Hin. vm_compute in Hin.
    repeat destruct Hin as [Hin | Hin]; try discriminate Hin. exact Hin. }
  split; [split; reflexivity |].
  split; [exact (Htotal 1 3) |].
  split; [exact (proj1 (Hbounds 1 3 ltac:(lia))) |].
  split; [exact (proj2 (Hbounds 1 3 ltac:(lia))) |].
  split; [exact (Htotal 0 0) |].
  split.
  - split; [exact Hnot |].
    destruct (Habsent _ _ Hnot) as (Hq & _ & Hp). by split.
  - eapply Forall_impl; [exact (Hdevices _) |].
    intros d (Hpos & _ & Hchecked & _ & Hlo & Hhi). by repeat split.
Defined.

Lemma extractBaseDomain_reverse_dns_labels_witness :
  endsWith "1.0.0.0.0.0.0.0.8.b.d.0.1.0.0.2.ip6.arpa" ".ip6.arpa" = true
  ∧ extractBaseDomain "1.0.0.0.0.0.0.0.8.b.d.0.1.0.0.2.ip6.arpa"
    = Some "ip6.arpa"%string.
Proof.
  split; [reflexivity |].
  exact (proj1 extractBaseDomain_reverse_dns_labels
               "1.0.0.0.0.0.0.0.8.b.d.0.1.0.0.2.ip6.arpa"
               (or_intror eq_refl)).
Defined.

(** The specification's example names three labels; the code returns the
    last two. *)
Lemma extractBaseDomain_reverse_dns_not_three_labels :
  extractBaseDomain "44.8.0.10.in-addr.arpa" ≠ Some "10.in-addr.arpa"%string.
Proof. discriminate. Qed.

Lemma topDomains_tie_rows :
  topDomains (processData tie_rows)
  = [ DomainCount.mk "b.com" 1; DomainCount.mk "a.com" 1 ].
Proof. vm_compute. reflexivity. Qed.

Lemma ranking_ties_not_by_key :
  ¬ ranked_by_count_then_key DomainCount.domain DomainCount.count
      (topDomains (processData tie_rows)).
Proof.
  rewrite topDomains_tie_rows. unfold ranked_by_count_then_key.
  intros [Hhead _]%StronglySorted_cons.
  apply Forall_cons in Hhead as [[Hlt | [_ Hleb]] _]; simpl in *.
  - lia.
  - vm_compute in Hleb. discriminate.
Qed.

Lemma extractBaseDomain_ordinary_labels_witness :
  "www.example.org"%string ≠ ""%string
  ∧ endsWith "www.example.org" ".in-addr.arpa" = false
  ∧ endsWith "www.example.org" ".ip6.arpa" = false
  ∧ 2 ≤ length (split "." "www.example.org")
  ∧ extractBaseDomain "www.example.org" = Some "example.org"%string.
Proof.
  assert ("www.example.org"%string ≠ ""%string) as Hne by discriminate.
  assert (2 ≤ length (split "." "www.example.org")) as Hlen by (vm_compute; lia).
  split; [exact Hne |]. split; [reflexivity |]. split; [reflexivity |].
  split; [exact Hlen |].
  exact (proj1 (proj1 extractBaseDomain_ordinary_labels
                      "www.example.org" Hne eq_refl eq_refl) Hlen).
Defined.

(** The empty string ends in neither suffix and has a single label, and
    is answered by null, not by itself. *)
Lemma extractBaseDomain_empty_not_unchanged :
  endsWith "" ".in-addr.arpa" = false
  ∧ endsWith "" ".ip6.arpa" = false
  ∧ length (split "." "") < 2
  ∧ extractBaseDomain "" ≠ Some ""%string.
Proof. repeat split; [vm_compute; lia | discriminate]. Qed.

Lemma processData_deterministic_witness :
  ecma_sort (@js_sort)
  ∧ ecma_sort (@insertion_sort)
  ∧ processData_with (@js_sort) sample_rows
    = processData_with (@insertion_sort) sample_rows.
Proof.
  split; [exact js_sort_ecma |]. split; [exact insertion_sort_ecma |].
  exact (processData_deterministic (@js_sort) (@insertion_sort) sample_rows
           js_sort_ecma insertion_sort_ecma).
Defined.


End Samples.

(** * Further properties of the domain normalizer *)

Section NormalizerFacts.
Import JSString JSStringFacts.

(** No label of a split contains the separator. *)
Lemma split_labels (sep : ascii) (s : string) :
  Forall (λ lbl, split sep lbl = [lbl]) (split sep s).
Proof.
  induction s as [|c s IH]; [by repeat constructor |].
  rewrite split_cons.
  destruct (Ascii.eqb_spec c sep) as [-> | Hne]; [by constructor |].
  pose proof (split_nonempty sep s) as Hs.
  destruct (split sep s) as [|lbl more]; [done |].
  apply Forall_cons in IH as [Hlbl Hmore]. constructor; [| done].
  rewrite split_cons, Hlbl.
  by destruct (Ascii.eqb_spec c sep).
Qed.

(** Joining labels and splitting again gives the labels back. *)
Lemma split_join (sep : ascii) (parts : list string) :
  parts ≠ [] → Forall (λ lbl, split sep lbl = [lbl]) parts →
  split sep (join (String sep "") parts) = parts.
Proof.
  induction parts as [|x parts IH]; intros Hne Hparts; [done |].
  apply Forall_cons in Hparts as [Hx Hparts].
  destruct parts as [|y parts]; [done |].
  rewrite join_cons2.
  change (x +:+ String sep "" +:+ join (String sep "") (y :: parts))
    with (x +:+ String sep (join (String sep "") (y :: parts))).
  rewrite split_app_sep, Hx, IH; done.
Qed.

Lemma slice_last_length {A} (n : nat) (l : list A) :
  length (slice_last n l) = length l `min` n.
Proof. unfold slice_last. rewrite length_drop. lia. Qed.

(** A non-empty string of at most two labels is its own base domain. *)
Lemma extractBaseDomain_fixed (r : string) :
  r ≠ ""%string → length (split "." r) ≤ 2 → extractBaseDomain r = Some r.
Proof.
  intros Hr Hlen.
  assert (endsWith r ".in-addr.arpa" = false) as H1.
  { apply not_true_is_false. intros [p ->]%endsWith_spec.
    change (p +:+ ".in-addr.arpa") with (p +:+ String "." "in-addr.arpa") in Hlen.
    rewrite split_app_sep, length_app in Hlen.
    pose proof (split_nonempty "." p). destruct (split "." p); [done |].
    simpl in Hlen. lia. }
  assert (endsWith r ".ip6.arpa" = false) as H2.
  { apply not_true_is_false. intros [p ->]%endsWith_spec.
    change (p +:+ ".ip6.arpa") with (p +:+ String "." "ip6.arpa") in Hlen.
    rewrite split_app_sep, length_app in Hlen.
    pose proof (split_nonempty "." p). destruct (split "." p); [done |].
    simpl in Hlen. lia. }
  rewrite (extractBaseDomain_ordinary r Hr H1 H2).
  destruct (Nat.leb_spec 2 (length (split "." r))); [| done].
  unfold slice_last.
  replace (length (split "." r) - 2) with 0 by lia.
  by rewrite drop_0, join_split.
Qed.

(** What the normalizer returns is not empty and has at most two
    labels. *)
Lemma extractBaseDomain_result (q r : string) :
  extractBaseDomain q = Some r →
  r ≠ ""%string ∧ length (split "." r) ≤ 2.
Proof.
  intros Hres.
  assert (q ≠ ""%string) as Hq by (intros ->; discriminate).
  assert (∀ parts : list string,
            parts = split "." q →
            join "." (slice_last 2 parts) ≠ ""%string
            ∧ length (split "." (join "." (slice_last 2 parts))) ≤ 2) as Hjoin.
  { intros parts ->.
    pose proof (split_labels "." q) as Hlabels.
    pose proof (split_nonempty "." q) as Hne.
    pose proof (slice_last_length 2 (split "." q)) as Hlen.
    assert (Forall (λ lbl, split "." lbl = [lbl]) (slice_last 2 (split "." q)))
      as Hsl by (unfold slice_last; by apply Forall_drop).
    assert (slice_last 2 (split "." q) ≠ []) as Hsne.
    { intros Hnil. rewrite Hnil in Hlen. simpl in Hlen.
      destruct (split "." q); [done | simpl in Hlen; lia]. }
    split.
    - destruct (slice_last 2 (split "." q)) as [|a [|b more]] eqn:E; [done | |].
      + assert (split "." q = [a]) as Hqa.
        { destruct (split "." q) as [|x [|y l]] eqn:Eq; [done | |].
          * unfold slice_last in E. simpl in E. by injection E as ->.
          * simpl in Hlen. lia. }
        pose proof (join_split "." q) as Hj. rewrite Hqa in Hj. simpl in *.
        by rewrite Hj.
      + rewrite join_cons2. intros Hempty. by destruct a.
    - rewrite (split_join "." _ Hsne Hsl). lia. }
  unfold extractBaseDomain in Hres.
  apply truthy_nonempty in Hq. rewrite Hq in Hres. simpl negb in Hres. cbv iota in Hres.
  destruct (endsWith q ".in-addr.arpa" || endsWith q ".ip6.arpa").
  - injection Hres as <-. by apply Hjoin.
  - cbv zeta in Hres. destruct (Nat.leb_spec 2 (length (split "." q))) as [Hge | Hlt].
    + injection Hres as <-. by apply Hjoin.
    + injection Hres as <-. split; [by apply truthy_nonempty | lia].
Qed.

(** X1.  The normalizer is idempotent: a base domain is its own base
    domain. *)
Theorem extractBaseDomain_idempotent (q r : string) :
  extractBaseDomain q = Some r → extractBaseDomain r = Some r.
Proof.
  intros [Hr Hlen]%extractBaseDomain_result. by apply extractBaseDomain_fixed.
Qed.

(** X2.  A base domain is never empty and never has more than two
    labels, whatever the query. *)
Theorem extractBaseDomain_two_labels (q r : string) :
  extractBaseDomain q = Some r →
  r ≠ ""%string
  ∧ length (split "." r) ≤ 2
  ∧ length (split "." r) = length (split "." q) `min` 2.
Proof.
  intros Hres. destruct (extractBaseDomain_result q r Hres) as [Hr Hlen].
  split; [done |]. split; [done |].
  assert (q ≠ ""%string) as Hq by (intros ->; discriminate).
  unfold extractBaseDomain in Hres.
  apply truthy_nonempty in Hq. rewrite Hq in Hres. simpl negb in Hres. cbv iota in Hres.
  pose proof (split_labels "." q) as Hlabels.
  pose proof (split_nonempty "." q) as Hne.
  assert (length (split "." (join "." (slice_last 2 (split "." q))))
          = length (split "." q) `min` 2) as Hjoin.
  { rewrite split_join.
    - apply slice_last_length.
    - intros Hnil. pose proof (slice_last_length 2 (split "." q)) as Hl.
      rewrite Hnil in Hl. simpl in Hl.
      destruct (split "." q); [done | simpl in Hl; lia].
    - unfold slice_last. by apply Forall_drop. }
  destruct (endsWith q ".in-addr.arpa" || endsWith q ".ip6.arpa").
  - by injection Hres as <-.
  - cbv zeta in Hres. destruct (Nat.leb_spec 2 (length (split "." q))) as [Hge | Hlt].
    + by injection Hres as <-.
    + injection Hres as <-. lia.
Qed.

End NormalizerFacts.

(** * Further properties of the aggregators *)

Section AggregatorFacts.
Import JSObject JSObjectFacts.
Context {A : Type} (iteratee : A → string).

Lemma filter_nonempty_elem (k : string) (l : list A) :
  k ∈ iteratee <$> l ↔
  1 ≤ length (List.filter (λ x, String.eqb (iteratee x) k) l).
Proof.
  induction l as [|x l IH]; csimpl.
  - rewrite elem_of_nil. lia.
  - rewrite elem_of_cons, IH.
    destruct (String.eqb_spec (iteratee x) k) as [-> | Hne]; simpl.
    + split; [lia | by left].
    + split; [intros [-> | Hin]; [done | lia] | by right].
Qed.

(** The counters of [_.countBy]: one for each key that occurs, holding
    the number of its elements. *)
Lemma countBy_elem (l : list A) (k : string) (n : nat) :
  (k, n) ∈ countBy iteratee l ↔
  k ∈ iteratee <$> l
  ∧ n = length (List.filter (λ x, String.eqb (iteratee x) k) l).
Proof.
  split.
  - intros Hin. split; [| by apply countBy_entry].
    apply countBy_keys. apply list_elem_of_fmap. by exists (k, n).
  - intros [Hk ->].
    apply (countBy_keys iteratee) in Hk.
    apply list_elem_of_fmap in Hk as ([k' n'] & -> & Hin). simpl.
    by rewrite <- (countBy_entry iteratee l k' n' Hin).
Qed.

Lemma countBy_positive (l : list A) (k : string) (n : nat) :
  (k, n) ∈ countBy iteratee l → 1 ≤ n.
Proof. intros [Hk ->]%countBy_elem. by apply filter_nonempty_elem. Qed.

Lemma countBy_NoDup (l : list A) : NoDup (countBy iteratee l).
Proof. eapply NoDup_fmap_1, countBy_keys_NoDup. Qed.

Lemma countBy_length (l : list A) :
  length (countBy iteratee l) = length (groupBy iteratee l).
Proof. by rewrite countBy_groupBy, length_fmap. Qed.

Lemma countBy_nonempty (l : list A) : l ≠ [] → countBy iteratee l ≠ [].
Proof.
  destruct l as [|x l]; [done |]. intros _ Hnil.
  assert (iteratee x ∈ (countBy iteratee (x :: l)).*1) as Hin.
  { apply countBy_keys. csimpl. by left. }
  rewrite Hnil in Hin. by apply elem_of_nil in Hin.
Qed.

Lemma filter_length_perm (P : A → bool) (l l' : list A) :
  l ≡ₚ l' → length (List.filter P l) = length (List.filter P l').
Proof.
  induction 1 as [|x l l' _ IH|x y l|l l' l'' _ IH1 _ IH2]; simpl.
  - done.
  - destruct (P x); simpl; by rewrite IH.
  - by destruct (P x), (P y).
  - by rewrite IH1.
Qed.

(** The counters do not depend on the order of the elements, only the
    order in which they are listed does. *)
Lemma countBy_perm (l l' : list A) :
  l ≡ₚ l' → countBy iteratee l ≡ₚ countBy iteratee l'.
Proof.
  intros Hperm. apply NoDup_Permutation; [apply countBy_NoDup .. |].
  intros [k n]. rewrite !countBy_elem.
  by rewrite (filter_length_perm _ l l' Hperm), Hperm.
Qed.

(** The counter of a key, 0 when there is none. *)
Lemma countBy_lookup (l : list A) (k : string) :
  default 0 (lookup k (countBy iteratee l))
  = length (List.filter (λ x, String.eqb (iteratee x) k) l).
Proof.
  destruct (lookup k (countBy iteratee l)) as [n|] eqn:E; simpl.
  - apply countBy_entry. clear -E.
    induction (countBy iteratee l) as [|[k0 n0] o IH]; simpl in E; [done |].
    destruct (String.eqb_spec k0 k) as [-> | Hne].
    + injection E as ->. by left.
    + right. by apply IH.
  - destruct (length (List.filter (λ x, String.eqb (iteratee x) k) l)) eqn:Elen;
      [done |].
    assert (k ∈ iteratee <$> l) as Hk by (apply filter_nonempty_elem; lia).
    apply (countBy_keys iteratee) in Hk.
    apply list_elem_of_fmap in Hk as ([k' n'] & -> & Hin). simpl in E.
    apply elem_lookup in Hin; [| apply countBy_keys_NoDup]. congruence.
Qed.

End AggregatorFacts.

Lemma length_le_sum {A} (w : A → nat) (l : list A) :
  Forall (λ x, 1 ≤ w x) l → length l ≤ sum_list_with w l.
Proof. induction 1 as [|x l Hx _ IH]; simpl; lia. Qed.

Lemma filter_swap_length {A} (P Q : A → bool) (l : list A) :
  length (List.filter P (List.filter Q l))
  = length (List.filter (λ x, P x && Q x) l).
Proof.
  induction l as [|x l IH]; simpl; [done |].
  destruct (Q x); simpl; rewrite ?andb_false_r, ?andb_true_r; [| done].
  destruct (P x); simpl; by rewrite IH.
Qed.

(** * Further properties of the aggregation *)

Section AggregationFacts.
Context {Num : Type} `{JSNum Num}.
Local Abbreviation row := (gmap string (jsval Num)).
Import JSObject JSObjectFacts.

Lemma filter_perm {A} (P : A → bool) (l l' : list A) :
  l ≡ₚ l' → List.filter P l ≡ₚ List.filter P l'.
Proof.
  induction 1 as [|x l l' _ IH|x y l|l l' l'' _ IH1 _ IH2]; simpl.
  - done.
  - destruct (P x); by rewrite IH.
  - destruct (P x), (P y); try done. apply Permutation_swap.
  - by rewrite IH1.
Qed.

Lemma validRows_perm (data data' : list row) :
  data ≡ₚ data' → enrichedRows data ≡ₚ enrichedRows data'.
Proof.
  intros Hperm. unfold enrichedRows, validRows.
  by rewrite (filter_perm isValidRow data data' Hperm).
Qed.

Lemma domainCountsOf_elem (rows : list row) (e : DomainCount.t) :
  e ∈ domainCountsOf rows ↔
  (DomainCount.domain e, DomainCount.count e)
    ∈ countBy (property "baseDomain") rows.
Proof.
  rewrite domainCountsOf_perm. unfold domainEntries.
  rewrite list_elem_of_fmap. split.
  - intros ([k n] & -> & Hin). simpl. by rewrite entries_perm in Hin.
  - intros Hin. exists (DomainCount.domain e, DomainCount.count e).
    split; [by destruct e |]. by rewrite entries_perm.
Qed.

Lemma ipCountsOf_elem (rows : list row) (e : IpCount.t) :
  e ∈ ipCountsOf rows ↔
  (IpCount.ip e, IpCount.count e) ∈ countBy (property "Client IP") rows.
Proof.
  rewrite ipCountsOf_perm. unfold ipEntries.
  rewrite list_elem_of_fmap. split.
  - intros ([k n] & -> & Hin). simpl. by rewrite entries_perm in Hin.
  - intros Hin. exists (IpCount.ip e, IpCount.count e).
    split; [by destruct e |]. by rewrite entries_perm.
Qed.

Lemma domainCountsOf_bounds (rows : list row) :
  Forall (λ e, 1 ≤ DomainCount.count e ∧ DomainCount.count e ≤ length rows)
         (domainCountsOf rows).
Proof.
  apply Forall_forall. intros e He. split.
  - apply domainCountsOf_elem in He. by apply countBy_positive in He.
  - rewrite <- (domainCountsOf_total rows). by apply sum_list_with_in.
Qed.

Lemma ipCountsOf_bounds (rows : list row) :
  Forall (λ e, 1 ≤ IpCount.count e ∧ IpCount.count e ≤ length rows)
         (ipCountsOf rows).
Proof.
  apply Forall_forall. intros e He. split.
  - apply ipCountsOf_elem in He. by apply countBy_positive in He.
  - rewrite <- (ipCountsOf_total rows). by apply sum_list_with_in.
Qed.

Lemma topDomains_eq (data : list row) :
  topDomains (processData data) = domainCountsOf (enrichedRows data).
Proof. reflexivity. Qed.

Lemma topIPs_eq (data : list row) :
  topIPs (processData data) = ipCountsOf (enrichedRows data).
Proof. reflexivity. Qed.

Lemma totalRecords_eq (data : list row) :
  Summary.totalRecords (summary (processData data)) = length (enrichedRows data).
Proof. reflexivity. Qed.

(** X3.  The result is the empty analysis exactly when no row of the
    input is valid, as on an empty input. *)
Theorem processData_empty (data : list row) :
  validRows data = [] ↔
  processData data
  = {| summary := Summary.mk 0 0 0 [];
       topDomains := []; topIPs := [];
       ipDomainCounts := []; domainIPCounts := [] |}.
Proof.
  split.
  - intros Hv. unfold processData.
    by rewrite (processData_with_valid (@js_sort) data [] Hv).
  - intros Hres.
    assert (Summary.totalRecords (summary (processData data)) = 0) as Hzero
      by (by rewrite Hres).
    rewrite totalRecords_eq in Hzero. unfold enrichedRows in Hzero.
    rewrite length_fmap in Hzero. by apply nil_length_inv.
Qed.

(** X4.  The unique counts of the summary are the lengths of the top
    lists and of the two relationship views, and none exceeds the total
    number of records. *)
Theorem summary_counts_coherent (data : list row) :
  let r := processData data in
  Summary.uniqueDomains (summary r) = length (topDomains r)
  ∧ Summary.uniqueDomains (summary r) = length (domainIPCounts r)
  ∧ Summary.uniqueIPs (summary r) = length (topIPs r)
  ∧ Summary.uniqueIPs (summary r) = length (ipDomainCounts r)
  ∧ Summary.uniqueDomains (summary r) ≤ Summary.totalRecords (summary r)
  ∧ Summary.uniqueIPs (summary r) ≤ Summary.totalRecords (summary r).
Proof.
  cbv zeta.
  assert (Summary.uniqueDomains (summary (processData data))
          = length (topDomains (processData data))) as Hd
    by (symmetry; apply (domainCountsOf_length (enrichedRows data))).
  assert (Summary.uniqueIPs (summary (processData data))
          = length (topIPs (processData data))) as Hi
    by (symmetry; apply (ipCountsOf_length (enrichedRows data))).
  split; [done |]. split; [| split; [done |]; split; [| split]].
  - unfold processData, processData_with.
    cbn [summary Summary.uniqueDomains domainIPCounts].
    by rewrite js_sort_perm, length_fmap, entries_length, keys_length, countBy_length.
  - unfold processData, processData_with.
    cbn [summary Summary.uniqueIPs ipDomainCounts].
    by rewrite js_sort_perm, length_fmap, entries_length, keys_length, countBy_length.
  - rewrite Hd, totalRecords_eq, topDomains_eq.
    rewrite <- (domainCountsOf_total (enrichedRows data)).
    apply length_le_sum. eapply Forall_impl; [apply domainCountsOf_bounds |].
    by intros e [? _].
  - rewrite Hi, totalRecords_eq, topIPs_eq.
    rewrite <- (ipCountsOf_total (enrichedRows data)).
    apply length_le_sum. eapply Forall_impl; [apply ipCountsOf_bounds |].
    by intros e [? _].
Qed.

(** X5.  No entry of the result is empty: every entry of the two views
    has at least one query and at least one counterpart, and every count
    of a ranking lies between 1 and the total of its entry (or of the
    summary), so the ratios the views compute never divide by zero and
    never exceed one. *)
Theorem entry_counts_bounds (data : list row) :
  let r := processData data in
  Forall (λ e, 1 ≤ IpEntry.uniqueDomains e
               ∧ IpEntry.uniqueDomains e ≤ IpEntry.totalQueries e
               ∧ Forall (λ d, 1 ≤ DomainCount.count d
                              ∧ DomainCount.count d ≤ IpEntry.totalQueries e)
                        (IpEntry.domains e))
         (ipDomainCounts r)
  ∧ Forall (λ e, 1 ≤ DomainEntry.uniqueIPs e
                 ∧ DomainEntry.uniqueIPs e ≤ DomainEntry.totalQueries e
                 ∧ Forall (λ i, 1 ≤ IpCount.count i
                                ∧ IpCount.count i ≤ DomainEntry.totalQueries e)
                          (DomainEntry.ips e))
           (domainIPCounts r)
  ∧ Forall (λ d, 1 ≤ DomainCount.count d
                 ∧ DomainCount.count d ≤ Summary.totalRecords (summary r))
           (topDomains r)
  ∧ Forall (λ i, 1 ≤ IpCount.count i
                 ∧ IpCount.count i ≤ Summary.totalRecords (summary r))
           (topIPs r).
Proof.
  cbv zeta.
  destruct (ipDomainCounts_shape data) as (Hip & _ & Hipkeys).
  destruct (domainIPCounts_shape data) as (Hdom & _ & Hdomkeys).
  split; [| split; [| split]].
  - apply Forall_forall. intros e He.
    pose proof (proj1 (Forall_forall _ _) Hip e He) as (Hdomains & Htotal & Huniq).
    cbv zeta in *.
    assert (1 ≤ IpEntry.totalQueries e) as Hpos.
    { rewrite Htotal. apply (filter_nonempty_elem (property "Client IP")).
      apply Hipkeys. by apply list_elem_of_fmap_2. }
    rewrite Huniq, <- domainCountsOf_length, Hdomains, Htotal.
    rewrite Htotal in Hpos.
    pose proof (domainCountsOf_bounds
                  (List.filter (λ r, String.eqb (property "Client IP" r) (IpEntry.ip e))
                               (enrichedRows data))) as Hb.
    split; [| split; [| done]].
    + rewrite domainCountsOf_length, keys_length.
      destruct (countBy (property "baseDomain")
                  (List.filter (λ r, String.eqb (property "Client IP" r) (IpEntry.ip e))
                               (enrichedRows data))) eqn:E; [| simpl; lia].
      apply countBy_nonempty in E; [done |].
      intros Hnil. rewrite Hnil in Hpos. simpl in Hpos. lia.
    + etrans; [| apply Nat.eq_le_incl, domainCountsOf_total].
      apply length_le_sum. eapply Forall_impl; [exact Hb |]. by intros d [? _].
  - apply Forall_forall. intros e He.
    pose proof (proj1 (Forall_forall _ _) Hdom e He) as (Hips & Htotal & Huniq).
    cbv zeta in *.
    assert (1 ≤ DomainEntry.totalQueries e) as Hpos.
    { rewrite Htotal. apply (filter_nonempty_elem (property "baseDomain")).
      apply Hdomkeys. by apply list_elem_of_fmap_2. }
    rewrite Huniq, <- ipCountsOf_length, Hips, Htotal.
    rewrite Htotal in Hpos.
    pose proof (ipCountsOf_bounds
                  (List.filter (λ r, String.eqb (property "baseDomain" r)
                                                (DomainEntry.domain e))
                               (enrichedRows data))) as Hb.
    split; [| split; [| done]].
    + rewrite ipCountsOf_length, keys_length.
      destruct (countBy (property "Client IP")
                  (List.filter (λ r, String.eqb (property "baseDomain" r)
                                                (DomainEntry.domain e))
                               (enrichedRows data))) eqn:E; [| simpl; lia].
      apply countBy_nonempty in E; [done |].
      intros Hnil. rewrite Hnil in Hpos. simpl in Hpos. lia.
    + etrans; [| apply Nat.eq_le_incl, ipCountsOf_total].
      apply length_le_sum. eapply Forall_impl; [exact Hb |]. by intros d [? _].
  - rewrite totalRecords_eq, topDomains_eq. apply domainCountsOf_bounds.
  - rewrite totalRecords_eq, topIPs_eq. apply ipCountsOf_bounds.
Qed.

End AggregationFacts.

Section RelationshipFacts.
Context {Num : Type} `{JSNum Num}.
Local Abbreviation row := (gmap string (jsval Num)).
Import JSObject JSObjectFacts.

Lemma sum_filter_split {A} (w : A → nat) (P : A → bool) (l : list A) :
  sum_list_with w (List.filter P l)
  + sum_list_with w (List.filter (λ x, negb (P x)) l)
  = sum_list_with w l.
Proof.
  induction l as [|x l IH]; simpl; [done |].
  destruct (P x); simpl; lia.
Qed.

Lemma sum_filter_key (k : string) (o : JSObject.t nat) :
  NoDup o.*1 →
  sum_list_with snd (List.filter (λ p, String.eqb p.1 k) o)
  = default 0 (lookup k o).
Proof.
  induction o as [|[k0 v] o IH]; csimpl; intros Hnd; [done |].
  apply NoDup_cons in Hnd as [Hk0 Hnd].
  destruct (String.eqb_spec k0 k) as [-> | Hne]; simpl; [| by apply IH].
  assert (List.filter (λ p : string * nat, String.eqb p.1 k) o = []) as ->;
    [| simpl; lia].
  clear -Hk0. induction o as [|[k1 v1] o IH]; simpl; [done |].
  csimpl in Hk0. apply not_elem_of_cons in Hk0 as [Hne Hk0].
  destruct (String.eqb_spec k1 k); [done | by apply IH].
Qed.

(** X6.  The query-type distribution has no entry named "null" and no
    entry without a name, every entry counts at least one record, and
    its counts add up to the records whose query type is not rendered as
    "null": those are left out of the distribution. *)
Theorem queryTypes_total (data : list row) :
  let r := processData data in
  Forall (λ q, QueryType.name q ≠ "null"%string
               ∧ QueryType.name q ≠ ""%string
               ∧ 1 ≤ QueryType.value q)
         (Summary.queryTypes (summary r))
  ∧ sum_list_with QueryType.value (Summary.queryTypes (summary r))
    + length (List.filter
                (λ row, String.eqb (property "Query Type" row) "null")
                (validRows data))
    = Summary.totalRecords (summary r).
Proof.
  cbv zeta. unfold processData, processData_with.
  cbn [summary Summary.queryTypes Summary.totalRecords].
  fold (enrichedRows data).
  set (counts := countBy (property "Query Type") (enrichedRows data)).
  split.
  - apply Forall_fmap, Forall_forall. intros [k n] Hin.
    apply list_elem_of_In, filter_In in Hin as [Hin Hk].
    apply list_elem_of_In in Hin. rewrite entries_perm in Hin.
    apply negb_true_iff, String.eqb_neq in Hk. simpl in *.
    split; [| split].
    + destruct k; [done | exact Hk].
    + by destruct k.
    + by apply countBy_positive in Hin.
  - rewrite sum_list_with_fmap.
    assert (sum_list_with
              (QueryType.value
               ∘ (λ p : string * nat,
                    QueryType.mk (if JSString.truthy p.1 then p.1 else "Unknown") p.2))
              (List.filter (λ p : string * nat, negb (String.eqb p.1 "null"))
                           (entries counts))
            = sum_list_with snd
                (List.filter (λ p : string * nat, negb (String.eqb p.1 "null"))
                             (entries counts))) as -> by done.
    assert (length (List.filter
                      (λ row, String.eqb (property "Query Type" row) "null")
                      (validRows data))
            = sum_list_with snd
                (List.filter (λ p : string * nat, String.eqb p.1 "null")
                             (entries counts))) as ->.
    { rewrite (filter_perm _ (entries counts) counts (entries_perm counts)).
      rewrite (sum_filter_key "null" counts (countBy_keys_NoDup _ _)).
      unfold counts. rewrite countBy_lookup. unfold enrichedRows.
      rewrite filter_fmap_length. f_equal. apply List.filter_ext.
      intros r. by rewrite property_enrich. }
    rewrite Nat.add_comm.
    rewrite (sum_filter_split snd (λ p : string * nat, String.eqb p.1 "null")).
    rewrite sum_entries. apply countBy_total.
Qed.

(** X7.  The two relationship views agree: when a domain is listed with
    a count under an address, the address is listed with the same count
    under that domain, and conversely. *)
Theorem relationship_views_agree (data : list row) (addr dom : string) (n : nat) :
  let r := processData data in
  (∃ e, e ∈ ipDomainCounts r ∧ IpEntry.ip e = addr
        ∧ DomainCount.mk dom n ∈ IpEntry.domains e)
  ↔ (∃ e, e ∈ domainIPCounts r ∧ DomainEntry.domain e = dom
          ∧ IpCount.mk addr n ∈ DomainEntry.ips e).
Proof.
  cbv zeta.
  destruct (ipDomainCounts_shape data) as (Hip & _ & Hipkeys).
  destruct (domainIPCounts_shape data) as (Hdom & _ & Hdomkeys).
  set (rows := enrichedRows data) in *.
  set (by_ip := λ r : row, String.eqb (property "Client IP" r) addr).
  set (by_dom := λ r : row, String.eqb (property "baseDomain" r) dom).
  assert (length (List.filter by_dom (List.filter by_ip rows))
          = length (List.filter by_ip (List.filter by_dom rows))) as Hswap.
  { rewrite !filter_swap_length. f_equal. apply List.filter_ext.
    intros r. apply andb_comm. }
  assert (∀ P : row → bool, ∀ f : row → string, ∀ k,
            k ∈ f <$> List.filter P rows → k ∈ f <$> rows) as Hsub.
  { intros P f k ([r] & -> & Hin%list_elem_of_In%filter_In)%list_elem_of_fmap.
    apply list_elem_of_fmap_2, list_elem_of_In. tauto. }
  assert (1 ≤ length (List.filter by_dom (List.filter by_ip rows))
          → dom ∈ property "baseDomain" <$> List.filter by_ip rows) as Hd1
    by (apply (filter_nonempty_elem (property "baseDomain"))).
  assert (1 ≤ length (List.filter by_ip (List.filter by_dom rows))
          → addr ∈ property "Client IP" <$> List.filter by_dom rows) as Hd2
    by (apply (filter_nonempty_elem (property "Client IP"))).
  split.
  - intros (e & He & <- & Hin).
    pose proof (proj1 (Forall_forall _ _) Hip e He) as (Hdomains & _).
    cbv zeta in Hdomains. rewrite Hdomains in Hin.
    apply domainCountsOf_elem, countBy_elem in Hin as [Hk Hn]. simpl in Hk, Hn.
    assert (dom ∈ DomainEntry.domain <$> domainIPCounts (processData data)) as Hdin
      by (apply Hdomkeys; by eapply Hsub).
    apply list_elem_of_fmap in Hdin as (e' & -> & He').
    exists e'. split; [done |]. split; [done |].
    pose proof (proj1 (Forall_forall _ _) Hdom e' He') as (Hips & _).
    cbv zeta in Hips. rewrite Hips.
    apply ipCountsOf_elem, countBy_elem. simpl.
    fold by_ip by_dom in Hn |- *.
    split; [| by rewrite <- Hswap].
    apply Hd2. rewrite <- Hswap.
    by apply (filter_nonempty_elem (property "baseDomain")).
  - intros (e & He & <- & Hin).
    pose proof (proj1 (Forall_forall _ _) Hdom e He) as (Hips & _).
    cbv zeta in Hips. rewrite Hips in Hin.
    apply ipCountsOf_elem, countBy_elem in Hin as [Hk Hn]. simpl in Hk, Hn.
    assert (addr ∈ IpEntry.ip <$> ipDomainCounts (processData data)) as Hain
      by (apply Hipkeys; by eapply Hsub).
    apply list_elem_of_fmap in Hain as (e' & -> & He').
    exists e'. split; [done |]. split; [done |].
    pose proof (proj1 (Forall_forall _ _) Hip e' He') as (Hdomains & _).
    cbv zeta in Hdomains. rewrite Hdomains.
    apply domainCountsOf_elem, countBy_elem. simpl.
    fold by_ip by_dom in Hn |- *.
    split; [| by rewrite Hswap].
    apply Hd1. rewrite Hswap.
    by apply (filter_nonempty_elem (property "Client IP")).
Qed.

(** X8.  The order of the rows of the input does not change what is
    counted: on a reordered input the summary has the same totals and
    the top lists hold the same entries, possibly in another order. *)
Theorem processData_reordered (data data' : list row) :
  data ≡ₚ data' →
  Summary.totalRecords (summary (processData data))
  = Summary.totalRecords (summary (processData data'))
  ∧ Summary.uniqueDomains (summary (processData data))
    = Summary.uniqueDomains (summary (processData data'))
  ∧ Summary.uniqueIPs (summary (processData data))
    = Summary.uniqueIPs (summary (processData data'))
  ∧ topDomains (processData data) ≡ₚ topDomains (processData data')
  ∧ topIPs (processData data) ≡ₚ topIPs (processData data').
Proof.
  intros Hperm%validRows_perm.
  assert (topDomains (processData data) ≡ₚ topDomains (processData data')) as Hd.
  { rewrite !topDomains_eq, !domainCountsOf_perm. unfold domainEntries.
    by rewrite !entries_perm, (countBy_perm _ _ _ Hperm). }
  assert (topIPs (processData data) ≡ₚ topIPs (processData data')) as Hi.
  { rewrite !topIPs_eq, !ipCountsOf_perm. unfold ipEntries.
    by rewrite !entries_perm, (countBy_perm _ _ _ Hperm). }
  split; [by rewrite !totalRecords_eq, Hperm |].
  destruct (summary_counts_coherent data) as (-> & _ & -> & _).
  destruct (summary_counts_coherent data') as (-> & _ & -> & _).
  by rewrite Hd, Hi.
Qed.

(** X9.  The two relationship views are listed by descending total, and
    entries of equal total keep the order in which [Object.entries]
    lists the keys of the grouping. *)
Theorem relationship_views_sorted (data : list row) :
  let r := processData data in
  sorted_desc IpEntry.totalQueries (ipDomainCounts r)
  ∧ sorted_desc DomainEntry.totalQueries (domainIPCounts r)
  ∧ (∀ c, IpEntry.ip <$> ties IpEntry.totalQueries c (ipDomainCounts r)
          = fst <$> List.filter
                      (λ p : string * list row, length p.2 =? c)
                      (entries (groupBy (property "Client IP") (enrichedRows data))))
  ∧ (∀ c, DomainEntry.domain <$> ties DomainEntry.totalQueries c (domainIPCounts r)
          = fst <$> List.filter
                      (λ p : string * list row, length p.2 =? c)
                      (entries (groupBy (property "baseDomain") (enrichedRows data)))).
Proof.
  cbv zeta. unfold processData, processData_with.
  cbn [ipDomainCounts domainIPCounts]. fold (enrichedRows data).
  assert (∀ {A B} (g : A → B) (P : B → bool) (l : list A),
            List.filter P (g <$> l) = g <$> List.filter (λ x, P (g x)) l) as Hfm.
  { intros A B g P l. induction l as [|x l IH]; csimpl; [done |].
    destruct (P (g x)); csimpl; by rewrite IH. }
  split; [apply js_sort_sorted |]. split; [apply js_sort_sorted |].
  split; intros c; rewrite js_sort_ties; unfold ties;
    by rewrite Hfm, <- list_fmap_compose.
Qed.

End RelationshipFacts.

(** * The views *)

Section ViewSortFacts.
Context {A : Type}.
Implicit Types (f : A → nat) (l : list A).

Lemma ascending_le f a b : (ascending f a b <=? 0)%Z = (f a <=? f b).
Proof.
  unfold ascending.
  destruct (Nat.leb_spec (f a) (f b)); [apply Z.leb_le | apply Z.leb_gt]; lia.
Qed.

Lemma js_sort_ascending f l :
  StronglySorted (λ a b, f a ≤ f b) (js_sort (ascending f) l)
  ∧ ∀ c, ties f c (js_sort (ascending f) l) = ties f c l.
Proof.
  induction l as [|x l [IHs IHt]]; [split; [constructor | done] |].
  cbn [js_sort foldr]. fold (js_sort (ascending f) l).
  revert IHs IHt. generalize (js_sort (ascending f) l) as sorted.
  intros sorted Hsorted Hties.
  assert (StronglySorted (λ a b, f a ≤ f b) (sort_insert (ascending f) x sorted)
          ∧ ∀ c, ties f c (sort_insert (ascending f) x sorted)
                 = ties f c (x :: sorted)) as [Hs Ht].
  { clear Hties. induction sorted as [|y sorted IH]; simpl.
    - split; [by repeat constructor | done].
    - rewrite ascending_le.
      apply StronglySorted_cons in Hsorted as [Hy Hsorted].
      destruct (IH Hsorted) as [IHs IHt].
      destruct (Nat.leb_spec (f x) (f y)) as [Hle | Hlt]; [split; [| done] | split].
      + apply StronglySorted_cons. split; [| by apply StronglySorted_cons].
        constructor; [done |].
        eapply Forall_impl; [exact Hy |]. simpl. intros z Hz. lia.
      + apply StronglySorted_cons. split; [| done].
        rewrite sort_insert_perm. constructor; [lia | done].
      + intros c. unfold ties in *. cbn [List.filter]. rewrite IHt.
        cbn [List.filter].
        destruct (Nat.eqb_spec (f x) c) as [Hx | Hx]; [| done].
        by destruct (Nat.eqb_spec (f y) c) as [Hy' | Hy']; [lia |]. }
  split; [done |]. intros c. rewrite Ht. unfold ties in *. cbn [List.filter].
  by rewrite Hties.
Qed.

(** Under a comparator that is NaN throughout, read as +0, nothing
    moves. *)
Lemma js_sort_constant l : js_sort (λ _ _ : A, 0%Z) l = l.
Proof.
  induction l as [|x l IH]; [done |].
  cbn [js_sort foldr]. fold (js_sort (λ _ _ : A, 0%Z) l). rewrite IH.
  by destruct l.
Qed.

End ViewSortFacts.

Section ViewFacts.
Import JSString JSStringFacts View.

Lemma prefix_spec (t s : string) :
  String.prefix t s = true ↔ ∃ q, s = t +:+ q.
Proof.
  revert s. induction t as [|c t IH]; intros s.
  - split; [intros _; by exists s | intros _; by destruct s].
  - destruct s as [|d s]; simpl;
      [split; [done | intros [q Hq]; by rewrite app_cons in Hq] |].
    destruct (ascii_dec c d) as [-> | Hne].
    + rewrite IH. split; intros [q Hq]; exists q.
      * by rewrite app_cons, <- Hq.
      * rewrite app_cons in Hq. by injection Hq.
    + split; [done |]. intros [q Hq]. rewrite app_cons in Hq. by injection Hq.
Qed.

(** [includes] finds exactly the substrings. *)
Lemma includes_spec (s t : string) :
  includes s t = true ↔ ∃ p q, s = p +:+ t +:+ q.
Proof.
  induction s as [|c s IH]; cbn [includes].
  - rewrite orb_false_r, prefix_spec. split.
    + intros [q Hq]. by exists ""%string, q.
    + intros (p & q & Hpq). destruct p; [by exists q |].
      by rewrite app_cons in Hpq.
  - rewrite orb_true_iff, IH, prefix_spec. split.
    + intros [[q Hq] | (p & q & Hpq)].
      * by exists ""%string, q.
      * exists (String c p), q. by rewrite app_cons, Hpq.
    + intros (p & q & Hpq). destruct p as [|d p].
      * left. by exists q.
      * right. exists p, q. rewrite app_cons in Hpq. by injection Hpq.
Qed.

Lemma includes_empty (s : string) : includes s "" = true.
Proof. apply includes_spec. by exists ""%string, s. Qed.

Lemma filter_all {A} (P : A → bool) (l : list A) :
  (∀ x, P x = true) → List.filter P l = l.
Proof.
  intros HP. induction l as [|x l IH]; simpl; [done |]. by rewrite HP, IH.
Qed.

(** X10.  [toggleSort] selects the field it is given and leaves the
    rest of the state alone; on the field already selected it only flips
    the direction, so a second click restores the state; on another
    field it starts over in descending order; and a third click on the
    same button gives the state of the first. *)
Theorem toggleSort_spec (field : SortField) (s : State) :
  sortField (toggleSort field s) = field
  ∧ analysisResults (toggleSort field s) = analysisResults s
  ∧ searchTerm (toggleSort field s) = searchTerm s
  ∧ activeView (toggleSort field s) = activeView s
  ∧ (sortField s = field →
     sortDirection (toggleSort field s) ≠ sortDirection s
     ∧ toggleSort field (toggleSort field s) = s)
  ∧ (sortField s ≠ field → sortDirection (toggleSort field s) = desc)
  ∧ toggleSort field (toggleSort field (toggleSort field s)) = toggleSort field s.
Proof.
  destruct s as [r v t f d].
  destruct field, f, d; cbv; repeat split; try done; intros; congruence.
Qed.

Section Search.
Variable toLowerCase : string → string.

(** What the two list views have in common: the entries that match the
    search, each once, ordered by a field the entries have, and in
    stored order under a field they lack. *)
Lemma filtered_view {E : Type} (name : E → string)
    (field : E → option nat) (s : State) (stored : list E) :
  let kept := List.filter (λ item, matchesSearch toLowerCase s (name item)) stored in
  let shown := js_sort (sortCompare (compareBy field (sortDirection s))) kept in
  shown ≡ₚ kept
  ∧ (∀ item, item ∈ shown ↔
             item ∈ stored
             ∧ ∃ p q, toLowerCase (name item)
                      = p +:+ toLowerCase (searchTerm s) +:+ q)
  ∧ (toLowerCase (searchTerm s) = ""%string → shown ≡ₚ stored)
  ∧ (∀ f : E → nat, (∀ item, field item = Some (f item)) →
       ordered f (sortDirection s) shown
       ∧ ∀ c, ties f c shown = ties f c kept)
  ∧ ((∀ item, field item = None) → shown = kept).
Proof.
  cbv zeta.
  set (kept := List.filter (λ item, matchesSearch toLowerCase s (name item)) stored).
  assert (∀ cmp1 cmp2 : E → E → Z, (∀ a b, cmp1 a b = cmp2 a b) →
            js_sort cmp1 kept = js_sort cmp2 kept) as Hext.
  { intros cmp1 cmp2 Hcmp. induction kept as [|x l IH]; [done |].
    cbn [js_sort foldr]. fold (js_sort cmp1 l) (js_sort cmp2 l). rewrite IH.
    generalize (js_sort cmp2 l). intros sorted.
    induction sorted as [|y sorted IHs]; simpl; [done |].
    by rewrite Hcmp, IHs. }
  split; [apply js_sort_perm |].
  split; [| split; [| split]].
  - intros item. rewrite js_sort_perm. unfold kept.
    rewrite list_elem_of_In, filter_In, <- list_elem_of_In.
    unfold matchesSearch. by rewrite includes_spec.
  - intros Hterm. rewrite js_sort_perm. unfold kept.
    rewrite filter_all; [done |].
    intros item. unfold matchesSearch. rewrite Hterm. apply includes_empty.
  - intros f Hfield. unfold ordered.
    destruct (sortDirection s).
    + rewrite (Hext _ (ascending f)); [apply js_sort_ascending |].
      intros a b. unfold sortCompare, compareBy. by rewrite !Hfield.
    + rewrite (Hext _ (descending f)).
      * split; [apply js_sort_sorted | intros c; apply js_sort_ties].
      * intros a b. unfold sortCompare, compareBy. by rewrite !Hfield.
  - intros Hfield. rewrite (Hext _ (λ _ _, 0%Z)); [apply js_sort_constant |].
    intros a b. unfold sortCompare, compareBy.
    destruct (sortDirection s); by rewrite !Hfield.
Qed.

(** X11.  The address list shows exactly the stored entries whose
    address contains the search term, both in lower case, each once; all
    of them when the term is empty; ordered by the selected field in the
    selected direction when that field is the total or the unique-domain
    count, entries of equal field in stored order. *)
Theorem getFilteredIPData_spec (s : State) (results : Analysis) :
  analysisResults s = Some results →
  let shown := getFilteredIPData toLowerCase s in
  (∀ item, item ∈ shown ↔
           item ∈ ipDomainCounts results
           ∧ ∃ p q, toLowerCase (IpEntry.ip item)
                    = p +:+ toLowerCase (searchTerm s) +:+ q)
  ∧ shown ≡ₚ List.filter (λ item, matchesSearch toLowerCase s (IpEntry.ip item))
                         (ipDomainCounts results)
  ∧ (toLowerCase (searchTerm s) = ""%string → shown ≡ₚ ipDomainCounts results)
  ∧ (sortField s = totalQueries →
     ordered IpEntry.totalQueries (sortDirection s) shown)
  ∧ (sortField s = uniqueDomains →
     ordered IpEntry.uniqueDomains (sortDirection s) shown).
Proof.
  intros Hres. cbv zeta. unfold getFilteredIPData. rewrite Hres.
  destruct (filtered_view IpEntry.ip (ipEntryField (sortField s)) s
              (ipDomainCounts results)) as (Hperm & Hin & Hall & Hsorted & _).
  cbv zeta in *.
  split; [done |]. split; [done |]. split; [done |].
  split; intros Hf; rewrite Hf in *.
  - by apply (Hsorted IpEntry.totalQueries).
  - by apply (Hsorted IpEntry.uniqueDomains).
Qed.

(** X12.  The domain list shows exactly the stored entries whose domain
    contains the search term, both in lower case, each once; all of them
    when the term is empty; ordered by the selected field in the selected
    direction when that field is the total or the unique-address count. *)
Theorem getFilteredDomainData_spec (s : State) (results : Analysis) :
  analysisResults s = Some results →
  let shown := getFilteredDomainData toLowerCase s in
  (∀ item, item ∈ shown ↔
           item ∈ domainIPCounts results
           ∧ ∃ p q, toLowerCase (DomainEntry.domain item)
                    = p +:+ toLowerCase (searchTerm s) +:+ q)
  ∧ shown ≡ₚ List.filter
               (λ item, matchesSearch toLowerCase s (DomainEntry.domain item))
               (domainIPCounts results)
  ∧ (toLowerCase (searchTerm s) = ""%string → shown ≡ₚ domainIPCounts results)
  ∧ (sortField s = totalQueries →
     ordered DomainEntry.totalQueries (sortDirection s) shown)
  ∧ (sortField s = uniqueIPs →
     ordered DomainEntry.uniqueIPs (sortDirection s) shown).
Proof.
  intros Hres. cbv zeta. unfold getFilteredDomainData. rewrite Hres.
  destruct (filtered_view DomainEntry.domain (domainEntryField (sortField s)) s
              (domainIPCounts results)) as (Hperm & Hin & Hall & Hsorted & _).
  cbv zeta in *.
  split; [done |]. split; [done |]. split; [done |].
  split; intros Hf; rewrite Hf in *.
  - by apply (Hsorted DomainEntry.totalQueries).
  - by apply (Hsorted DomainEntry.uniqueIPs).
Qed.

(** X13.  The sort field is shared by the two lists and a change of view
    does not reset it.  Under the field of the other view (the
    unique-address count on the address list, the unique-domain count on
    the domain list) the entries have no such field, the comparator is
    NaN, and the list is shown in stored order in either direction. *)
Theorem foreign_sort_field_keeps_order (s : State) (results : Analysis) :
  analysisResults s = Some results →
  (sortField s = uniqueIPs →
   getFilteredIPData toLowerCase s
   = List.filter (λ item, matchesSearch toLowerCase s (IpEntry.ip item))
                 (ipDomainCounts results))
  ∧ (sortField s = uniqueDomains →
     getFilteredDomainData toLowerCase s
     = List.filter (λ item, matchesSearch toLowerCase s (DomainEntry.domain item))
                   (domainIPCounts results)).
Proof.
  intros Hres. unfold getFilteredIPData, getFilteredDomainData. rewrite Hres.
  split; intros Hf; rewrite Hf.
  - by apply (filtered_view IpEntry.ip (ipEntryField uniqueIPs) s).
  - by apply (filtered_view DomainEntry.domain (domainEntryField uniqueDomains) s).
Qed.

End Search.

End ViewFacts.

Section ChartFacts.
Context {Num : Type} `{JSNum Num}.
Local Abbreviation row := (gmap string (jsval Num)).
Import JSString JSStringFacts JSObjectFacts View.

Lemma sorted_desc_take_drop {A} (f : A → nat) (n : nat) (l : list A) :
  sorted_desc f l →
  sorted_desc f (take n l)
  ∧ ∀ x y, x ∈ take n l → y ∈ drop n l → f y ≤ f x.
Proof.
  unfold sorted_desc. intros Hs. rewrite <- (take_drop n l) in Hs.
  apply StronglySorted_app in Hs as (Hcross & Htake & _).
  split; [done |]. intros x y Hx Hy. by apply Hcross.
Qed.

Lemma sorted_desc_fmap {A B} (f : B → nat) (g : A → B) (l : list A) :
  sorted_desc (f ∘ g) l → sorted_desc f (g <$> l).
Proof.
  unfold sorted_desc. induction 1 as [|x l _ IH Hx]; csimpl; constructor; [done |].
  by apply Forall_fmap.
Qed.

(** X14.  The two bar charts of the overview show at most ten entries,
    in descending order of count, and nothing that is left out has a
    larger count than something shown. *)
Theorem top_charts (data : list row) :
  let r := processData data in
  (length (topDomainsChart r) = Summary.uniqueDomains (summary r) `min` 10
   ∧ sorted_desc ChartItem.value (topDomainsChart r)
   ∧ ∀ shown rest, shown ∈ topDomainsChart r → rest ∈ drop 10 (topDomains r) →
                   DomainCount.count rest ≤ ChartItem.value shown)
  ∧ (length (topIPsChart r) = Summary.uniqueIPs (summary r) `min` 10
     ∧ sorted_desc ChartItem.value (topIPsChart r)
     ∧ ∀ shown rest, shown ∈ topIPsChart r → rest ∈ drop 10 (topIPs r) →
                     IpCount.count rest ≤ ChartItem.value shown).
Proof.
  cbv zeta. unfold topDomainsChart, topIPsChart.
  pose proof (js_sort_sorted DomainCount.count (domainEntries (enrichedRows data)))
    as Hd.
  pose proof (js_sort_sorted IpCount.count (ipEntries (enrichedRows data))) as Hi.
  change (js_sort (descending DomainCount.count) (domainEntries (enrichedRows data)))
    with (topDomains (processData data)) in Hd.
  change (js_sort (descending IpCount.count) (ipEntries (enrichedRows data)))
    with (topIPs (processData data)) in Hi.
  destruct (sorted_desc_take_drop _ 10 _ Hd) as [Hdt Hdd].
  destruct (sorted_desc_take_drop _ 10 _ Hi) as [Hit Hid].
  split; (split; [| split]).
  - rewrite length_fmap, length_take.
    pose proof (domainCountsOf_length (enrichedRows data)) as Hlen.
    change (length (topDomains (processData data))
            = Summary.uniqueDomains (summary (processData data))) in Hlen.
    lia.
  - by apply sorted_desc_fmap.
  - intros shown rest (item & -> & Hitem)%list_elem_of_fmap Hrest. simpl.
    by apply Hdd.
  - rewrite length_fmap, length_take.
    pose proof (ipCountsOf_length (enrichedRows data)) as Hlen.
    change (length (topIPs (processData data))
            = Summary.uniqueIPs (summary (processData data))) in Hlen.
    lia.
  - by apply sorted_desc_fmap.
  - intros shown rest (item & -> & Hitem)%list_elem_of_fmap Hrest. simpl.
    by apply Hid.
Qed.


End ChartFacts.

Section HeatmapFacts.
Context {Num : Type} `{JSNum Num}.
Local Abbreviation row := (gmap string (jsval Num)).
Import JSObjectFacts View.

Lemma heatmapRow_cells (dd : DomainEntry.t) (domain : DomainCount.t)
    (tops : list IpCount.t) (data : list HeatCell.t) :
  heatmapRow dd domain tops data = data ++ (heatmapCell dd domain <$> tops).
Proof.
  unfold heatmapRow. revert data.
  induction tops as [|i tops IH]; intros data; csimpl; [by rewrite app_nil_r |].
  by rewrite IH, <- app_assoc.
Qed.

(** The cells of the heat map: one for each of the top domains that has
    an entry in the domain view and each of the top addresses. *)
Lemma heatmapData_cells (results : Analysis) (cell : HeatCell.t) :
  cell ∈ heatmapData results ↔
  ∃ domain dd ipObj,
    domain ∈ take 10 (topDomains results)
    ∧ List.find (λ d, String.eqb (DomainEntry.domain d) (DomainCount.domain domain))
                (domainIPCounts results) = Some dd
    ∧ ipObj ∈ take 10 (topIPs results)
    ∧ cell = heatmapCell dd domain ipObj.
Proof.
  unfold heatmapData. cbv zeta.
  generalize (take 10 (topDomains results)) as doms.
  generalize (take 10 (topIPs results)) as tops. intros tops doms.
  assert (∀ acc : list HeatCell.t,
            cell ∈ foldl (λ data domain,
                            match List.find
                                    (λ d, String.eqb (DomainEntry.domain d)
                                                     (DomainCount.domain domain))
                                    (domainIPCounts results) with
                            | Some domainData => heatmapRow domainData domain tops data
                            | None => data
                            end) acc doms
            ↔ cell ∈ acc
              ∨ ∃ domain dd ipObj,
                  domain ∈ doms
                  ∧ List.find (λ d, String.eqb (DomainEntry.domain d)
                                               (DomainCount.domain domain))
                              (domainIPCounts results) = Some dd
                  ∧ ipObj ∈ tops
                  ∧ cell = heatmapCell dd domain ipObj) as Hgen.
  { induction doms as [|d doms IH]; intros acc; simpl.
    - split; [by left |]. intros [? | (? & ? & ? & []%elem_of_nil & _)]. done.
    - rewrite IH. clear IH.
      destruct (List.find _ (domainIPCounts results)) as [dd|] eqn:Efind.
      + rewrite heatmapRow_cells, elem_of_app, list_elem_of_fmap. split.
        * intros [[Hacc | (i & -> & Hi)] | (d' & dd' & i & Hd' & Hf & Hi & ->)].
          -- by left.
          -- right. exists d, dd, i. split; [by left | done].
          -- right. exists d', dd', i. split; [by right | done].
        * intros [Hacc | (d' & dd' & i & Hd' & Hf & Hi & ->)]; [by left; left |].
          apply elem_of_cons in Hd' as [-> | Hd'].
          -- left. right. exists i. split; [| done]. congruence.
          -- right. by exists d', dd', i.
      + split.
        * intros [Hacc | (d' & dd' & i & Hd' & Hf & Hi & ->)]; [by left |].
          right. exists d', dd', i. split; [by right | done].
        * intros [Hacc | (d' & dd' & i & Hd' & Hf & Hi & ->)]; [by left |].
          apply elem_of_cons in Hd' as [-> | Hd']; [congruence |].
          right. by exists d', dd', i. }
  rewrite Hgen, elem_of_nil. tauto.
Qed.

(** Every top domain of the result has its entry in the domain view. *)
Lemma find_domain_entry (data : list row) (domain : DomainCount.t) :
  domain ∈ topDomains (processData data) →
  ∃ dd, List.find (λ d, String.eqb (DomainEntry.domain d) (DomainCount.domain domain))
                  (domainIPCounts (processData data)) = Some dd
        ∧ dd ∈ domainIPCounts (processData data)
        ∧ DomainEntry.domain dd = DomainCount.domain domain.
Proof.
  intros Hdom.
  destruct (List.find _ (domainIPCounts (processData data))) as [dd|] eqn:Efind.
  - apply find_some in Efind as [Hin Heq%String.eqb_eq].
    exists dd. by rewrite <- list_elem_of_In in Hin.
  - exfalso.
    rewrite topDomains_eq in Hdom.
    apply domainCountsOf_elem, countBy_elem in Hdom as [Hkey _].
    apply (proj2 (proj2 (domainIPCounts_shape data))) in Hkey.
    apply list_elem_of_fmap in Hkey as (dd & Heq & Hin).
    apply list_elem_of_In in Hin.
    pose proof (find_none _ _ Efind dd Hin) as Hno. simpl in Hno.
    rewrite Heq, String.eqb_refl in Hno. done.
Qed.

(** The value of a cell is the number of rows of its domain and its
    address. *)
Lemma heatmapCell_value (data : list row) (dd : DomainEntry.t)
    (domain : DomainCount.t) (ipObj : IpCount.t) :
  dd ∈ domainIPCounts (processData data) →
  HeatCell.value (heatmapCell dd domain ipObj)
  = length (List.filter
              (λ r, String.eqb (property "baseDomain" r) (DomainEntry.domain dd)
                    && String.eqb (property "Client IP" r) (IpCount.ip ipObj))
              (enrichedRows data)).
Proof.
  intros Hdd.
  pose proof (proj1 (Forall_forall _ _) (proj1 (domainIPCounts_shape data)) dd Hdd)
    as (Hips & _).
  cbv zeta in Hips. unfold heatmapCell. cbn [HeatCell.value]. rewrite Hips.
  set (rows := List.filter
                 (λ r, String.eqb (property "baseDomain" r) (DomainEntry.domain dd))
                 (enrichedRows data)).
  assert (length (List.filter
                    (λ r, String.eqb (property "Client IP" r) (IpCount.ip ipObj)) rows)
          = length (List.filter
                      (λ r, String.eqb (property "baseDomain" r) (DomainEntry.domain dd)
                            && String.eqb (property "Client IP" r) (IpCount.ip ipObj))
                      (enrichedRows data))) as <-.
  { unfold rows. rewrite filter_swap_length. f_equal.
    apply List.filter_ext. intros r. apply andb_comm. }
  destruct (List.find _ (ipCountsOf rows)) as [found|] eqn:Efind.
  - apply find_some in Efind as [Hin Heq%String.eqb_eq].
    apply list_elem_of_In, ipCountsOf_elem, countBy_elem in Hin as [_ ->].
    by rewrite Heq.
  - destruct (length (List.filter _ rows)) eqn:Elen; [done |].
    exfalso.
    assert (IpCount.ip ipObj ∈ property "Client IP" <$> rows) as Hkey
      by (apply filter_nonempty_elem; lia).
    apply (countBy_keys (property "Client IP")) in Hkey.
    apply list_elem_of_fmap in Hkey as ([k m] & Hk & Hin). simpl in Hk. subst k.
    assert (IpCount.mk (IpCount.ip ipObj) m ∈ ipCountsOf rows) as Hentry
      by (by apply ipCountsOf_elem).
    apply list_elem_of_In in Hentry.
    pose proof (find_none _ _ Efind _ Hentry) as Hno. simpl in Hno.
    by rewrite String.eqb_refl in Hno.
Qed.

(** X16.  The heat map has a cell for each of the top ten domains and
    each of the top ten addresses, and the value shown for a domain and
    an address is the number of valid rows with that base domain and that
    client address, 0 when there is none. *)
Theorem heatmapValue_spec (data : list row) (domain : DomainCount.t)
    (ip : IpCount.t) :
  let r := processData data in
  domain ∈ take 10 (topDomains r) → ip ∈ take 10 (topIPs r) →
  (∃ cell, cell ∈ heatmapData r
           ∧ HeatCell.domain cell = DomainCount.domain domain
           ∧ HeatCell.ip cell = IpCount.ip ip)
  ∧ heatmapValue r domain ip
    = length (List.filter
                (λ row, String.eqb (property "baseDomain" row)
                                   (DomainCount.domain domain)
                        && String.eqb (property "Client IP" row) (IpCount.ip ip))
                (enrichedRows data)).
Proof.
  cbv zeta. intros Hdomain Hip.
  assert (domain ∈ topDomains (processData data)) as Hdomain'
    by (by apply (subseteq_take 10)).
  destruct (find_domain_entry data domain Hdomain') as (dd & Hfind & Hdd & Hname).
  assert (heatmapCell dd domain ip ∈ heatmapData (processData data)) as Hcell
    by (apply heatmapData_cells; by exists domain, dd, ip).
  split; [by exists (heatmapCell dd domain ip) |].
  unfold heatmapValue.
  destruct (List.find _ (heatmapData (processData data))) as [cell|] eqn:Efind.
  - apply find_some in Efind as [Hin [Hd Hi]%andb_true_iff].
    apply String.eqb_eq in Hd, Hi.
    apply list_elem_of_In, heatmapData_cells in Hin
      as (domain' & dd' & ip' & Hdomain'' & Hfind' & _ & ->).
    apply find_some in Hfind' as [Hdd' Hname'%String.eqb_eq].
    apply list_elem_of_In in Hdd'.
    rewrite (heatmapCell_value data dd' domain' ip' Hdd').
    simpl in Hd, Hi. by rewrite Hname', Hd, Hi.
  - exfalso. apply list_elem_of_In in Hcell.
    pose proof (find_none _ _ Efind _ Hcell) as Hno. simpl in Hno.
    by rewrite !String.eqb_refl in Hno.
Qed.

End HeatmapFacts.

(** * The further properties on sample inputs *)

Section MoreSamples.
Import JSString View.

Lemma extractBaseDomain_idempotent_witness :
  extractBaseDomain "mail.example.com" = Some "example.com"%string
  ∧ extractBaseDomain "example.com" = Some "example.com"%string.
Proof.
  split; [reflexivity |].
  exact (extractBaseDomain_idempotent "mail.example.com" "example.com" eq_refl).
Defined.

Lemma extractBaseDomain_two_labels_witness :
  extractBaseDomain "1.0.0.127.in-addr.arpa" = Some "in-addr.arpa"%string
  ∧ "in-addr.arpa"%string ≠ ""%string
  ∧ length (split "." "in-addr.arpa") ≤ 2
  ∧ length (split "." "in-addr.arpa")
    = length (split "." "1.0.0.127.in-addr.arpa") `min` 2.
Proof.
  split; [reflexivity |].
  exact (extractBaseDomain_two_labels "1.0.0.127.in-addr.arpa" "in-addr.arpa" eq_refl).
Defined.

Lemma processData_reordered_witness :
  sample_rows ≡ₚ reverse sample_rows
  ∧ Summary.totalRecords (summary (processData sample_rows))
    = Summary.totalRecords (summary (processData (reverse sample_rows)))
  ∧ topDomains (processData sample_rows)
    ≡ₚ topDomains (processData (reverse sample_rows)).
Proof.
  assert (sample_rows ≡ₚ reverse sample_rows) as Hperm
    by (symmetry; apply reverse_Permutation).
  split; [exact Hperm |].
  pose proof (processData_reordered sample_rows (reverse sample_rows) Hperm)
    as (Htotal & _ & _ & Htop & _).
  split; [exact Htotal | exact Htop].
Defined.

Lemma getFilteredIPData_spec_witness :
  let s := view_state ips "10.0" uniqueDomains desc in
  let shown := getFilteredIPData lowerAscii s in
  analysisResults s = Some (processData view_rows)
  ∧ IpEntry.ip <$> ipDomainCounts (processData view_rows)
    = [ "10.0.0.1"; "192.168.1.5"; "10.0.0.2" ]%string
  ∧ (λ e, (IpEntry.ip e, IpEntry.uniqueDomains e)) <$> shown
    = [ ("10.0.0.2"%string, 2); ("10.0.0.1"%string, 1) ]
  ∧ (∀ item, item ∈ shown ↔
             item ∈ ipDomainCounts (processData view_rows)
             ∧ ∃ p q, lowerAscii (IpEntry.ip item)
                      = p +:+ lowerAscii "10.0" +:+ q)
  ∧ ordered IpEntry.uniqueDomains desc shown.
Proof.
  cbv zeta.
  pose proof (getFilteredIPData_spec lowerAscii
                (view_state ips "10.0" uniqueDomains desc)
                (processData view_rows) eq_refl) as (Hin & _ & _ & _ & Hord).
  split; [reflexivity |].
  split; [vm_compute; reflexivity |].
  split; [vm_compute; reflexivity |].
  split; [exact Hin | exact (Hord eq_refl)].
Defined.

Lemma getFilteredDomainData_spec_witness :
  let s := view_state domains "S" uniqueIPs asc in
  let shown := getFilteredDomainData lowerAscii s in
  analysisResults s = Some (processData view_rows)
  ∧ DomainEntry.domain <$> domainIPCounts (processData view_rows)
    = [ "example.com"; "shared.net"; "ADS.io"; "other.org"; "third.org" ]%string
  ∧ (λ e, (DomainEntry.domain e, DomainEntry.uniqueIPs e)) <$> shown
    = [ ("ADS.io"%string, 1); ("shared.net"%string, 2) ]
  ∧ (∀ item, item ∈ shown ↔
             item ∈ domainIPCounts (processData view_rows)
             ∧ ∃ p q, lowerAscii (DomainEntry.domain item)
                      = p +:+ lowerAscii "S" +:+ q)
  ∧ ordered DomainEntry.uniqueIPs asc shown.
Proof.
  cbv zeta.
  pose proof (getFilteredDomainData_spec lowerAscii
                (view_state domains "S" uniqueIPs asc)
                (processData view_rows) eq_refl) as (Hin & _ & _ & _ & Hord).
  split; [reflexivity |].
  split; [vm_compute; reflexivity |].
  split; [vm_compute; reflexivity |].
  split; [exact Hin | exact (Hord eq_refl)].
Defined.

Lemma foreign_sort_field_keeps_order_witness :
  let on_ips := view_state ips "" uniqueIPs asc in
  let on_domains := view_state domains "" uniqueDomains asc in
  (analysisResults on_ips = Some (processData view_rows)
   ∧ sortField on_ips = uniqueIPs
   ∧ getFilteredIPData lowerAscii on_ips
     = List.filter (λ item, matchesSearch lowerAscii on_ips (IpEntry.ip item))
                   (ipDomainCounts (processData view_rows))
   ∧ (λ e, (IpEntry.ip e, IpEntry.totalQueries e))
       <$> getFilteredIPData lowerAscii on_ips
     = [ ("10.0.0.1"%string, 4); ("192.168.1.5"%string, 3); ("10.0.0.2"%string, 2) ])
  ∧ (analysisResults on_domains = Some (processData view_rows)
     ∧ sortField on_domains = uniqueDomains
     ∧ getFilteredDomainData lowerAscii on_domains
       = List.filter
           (λ item, matchesSearch lowerAscii on_domains (DomainEntry.domain item))
           (domainIPCounts (processData view_rows))
     ∧ (λ e, (DomainEntry.domain e, DomainEntry.totalQueries e))
         <$> getFilteredDomainData lowerAscii on_domains
       = [ ("example.com"%string, 4); ("shared.net"%string, 2);
           ("ADS.io"%string, 1); ("other.org"%string, 1);
           ("third.org"%string, 1) ]).
Proof.
  cbv zeta. split.
  - split; [reflexivity |]. split; [reflexivity |].
    split; [| vm_compute; reflexivity].
    exact (proj1 (foreign_sort_field_keeps_order lowerAscii
                    (view_state ips "" uniqueIPs asc)
                    (processData view_rows) eq_refl) eq_refl).
  - split; [reflexivity |]. split; [reflexivity |].
    split; [| vm_compute; reflexivity].
    exact (proj2 (foreign_sort_field_keeps_order lowerAscii
                    (view_state domains "" uniqueDomains asc)
                    (processData view_rows) eq_refl) eq_refl).
Defined.

Lemma heatmapValue_spec_witness :
  DomainCount.mk "a.org" 2 ∈ take 10 (topDomains (processData sample_rows))
  ∧ IpCount.mk "10.0.0.2" 3 ∈ take 10 (topIPs (processData sample_rows))
  ∧ heatmapValue (processData sample_rows)
      (DomainCount.mk "a.org" 2) (IpCount.mk "10.0.0.2" 3)
    = length (List.filter
                (λ row, String.eqb (property "baseDomain" row) "a.org"
                        && String.eqb (property "Client IP" row) "10.0.0.2")
                (enrichedRows sample_rows)).
Proof.
  assert (DomainCount.mk "a.org" 2 ∈ take 10 (topDomains (processData sample_rows)))
    as Hd by (apply list_elem_of_In; vm_compute; tauto).
  assert (IpCount.mk "10.0.0.2" 3 ∈ take 10 (topIPs (processData sample_rows)))
    as Hi by (apply list_elem_of_In; vm_compute; tauto).
  split; [exact Hd |]. split; [exact Hi |].
  exact (proj2 (heatmapValue_spec sample_rows (DomainCount.mk "a.org" 2)
                  (IpCount.mk "10.0.0.2" 3) Hd Hi)).
Defined.

(** The address list of the sample state: only the address that
    contains "0.0.2" is left. *)
Example getFilteredIPData_sample :
  IpEntry.ip <$> getFilteredIPData lowerAscii sample_state = [ "10.0.0.2"%string ]
  ∧ heatmapValue (processData sample_rows)
      (DomainCount.mk "a.org" 2) (IpCount.mk "10.0.0.2" 3) = 1
  ∧ columnLabel (IpCount.mk "10.0.0.2" 3) = Some "2"%string.
Proof. vm_compute. done. Qed.

End MoreSamples.

Section DomainViewFacts.
Context {Num : Type} `{JSNum Num}.
Local Abbreviation row := (gmap string (jsval Num)).
Import JSString JSStringFacts JSObjectFacts View.

(** X17.  The domain view has one entry for each distinct base domain
    of the valid rows; the total of an entry is the number of valid rows
    with that base domain; and these totals, like the counts of the
    top-domain list, add up to the total number of records. *)
Theorem domain_view_partition (data : list row) :
  let r := processData data in
  NoDup (DomainEntry.domain <$> domainIPCounts r)
  ∧ (∀ dom, dom ∈ DomainEntry.domain <$> domainIPCounts r
            ↔ dom ∈ (λ row, property "baseDomain" (enrich row)) <$> validRows data)
  ∧ Forall (λ e, DomainEntry.totalQueries e
                 = length (List.filter
                             (λ row, String.eqb (property "baseDomain" (enrich row))
                                                (DomainEntry.domain e))
                             (validRows data)))
           (domainIPCounts r)
  ∧ sum_list_with DomainEntry.totalQueries (domainIPCounts r)
    = Summary.totalRecords (summary r)
  ∧ sum_list_with DomainCount.count (topDomains r)
    = Summary.totalRecords (summary r).
Proof.
  cbv zeta.
  destruct (domainIPCounts_shape data) as (Hshape & Hnodup & Hkeys).
  split; [done |]. split; [| split; [| split]].
  - intros dom. rewrite Hkeys. unfold enrichedRows.
    by rewrite <- list_fmap_compose.
  - eapply Forall_impl; [exact Hshape |].
    intros e (_ & -> & _). unfold enrichedRows. apply filter_fmap_length.
  - rewrite totalRecords_eq. apply domainIPCounts_total.
  - rewrite totalRecords_eq, topDomains_eq. apply domainCountsOf_total.
Qed.

(** X18.  Every key of the result comes from a valid row: a listed
    domain is the base domain of the query value of some valid row, so it
    is not empty and has at most two labels, and a listed address is the
    non-empty client address of some valid row. *)
Theorem result_keys_from_valid_rows (data : list row) :
  let r := processData data in
  Forall (λ d, (∃ row q, row ∈ validRows data
                         ∧ row !! "Query Value" = Some (JSStr q)
                         ∧ extractBaseDomain q = Some (DomainCount.domain d))
               ∧ DomainCount.domain d ≠ ""%string
               ∧ length (split "." (DomainCount.domain d)) ≤ 2)
         (topDomains r)
  ∧ Forall (λ i, (∃ row, row ∈ validRows data
                         ∧ row !! "Client IP" = Some (JSStr (IpCount.ip i)))
                 ∧ IpCount.ip i ≠ ""%string)
           (topIPs r).
Proof.
  cbv zeta. split; apply Forall_forall.
  - intros d Hd. rewrite topDomains_eq in Hd.
    apply domainCountsOf_elem, countBy_elem in Hd as [Hkey _].
    unfold enrichedRows in Hkey. rewrite <- list_fmap_compose in Hkey.
    apply list_elem_of_fmap in Hkey as (r & Hd & Hr).
    pose proof Hr as Hvalid. unfold validRows in Hvalid.
    apply list_elem_of_In, filter_In in Hvalid as [_ Hvalid].
    destruct (property_valid r Hvalid) as (q & addr & base & Hq & Hbase & _ & _ & Hb).
    simpl in Hd. rewrite Hb in Hd. subst base.
    destruct (extractBaseDomain_result q _ Hbase) as [Hne Hlen].
    split; [by exists r, q | done].
  - intros i Hi. rewrite topIPs_eq in Hi.
    apply ipCountsOf_elem, countBy_elem in Hi as [Hkey _].
    unfold enrichedRows in Hkey. rewrite <- list_fmap_compose in Hkey.
    apply list_elem_of_fmap in Hkey as (r & Hi & Hr).
    pose proof Hr as Hvalid. unfold validRows in Hvalid.
    apply list_elem_of_In, filter_In in Hvalid as [_ Hvalid].
    destruct (property_valid r Hvalid) as (q & addr & base & _ & _ & Haddr & Hne & _).
    simpl in Hi. rewrite Haddr in Hi. subst addr.
    apply isValidRow_spec in Hvalid as (q' & addr' & _ & Ha & _ & _).
    split; [| done]. exists r. split; [done |].
    rewrite Ha. do 2 f_equal.
    unfold property, get, enrich in Haddr.
    rewrite lookup_insert_ne in Haddr by done. by rewrite Ha in Haddr.
Qed.

(** X19.  The two sort buttons of a list view select a field that the
    entries of that view have: after a click on either button of the
    address view the address list is ordered by the field of the button,
    and likewise for the domain view. *)
Theorem sort_buttons_order_the_list (toLowerCase : string → string)
    (s : State) (results : Analysis) :
  analysisResults s = Some results →
  ordered IpEntry.totalQueries (sortDirection (toggleSort totalQueries s))
          (getFilteredIPData toLowerCase (toggleSort totalQueries s))
  ∧ ordered DomainEntry.totalQueries (sortDirection (toggleSort totalQueries s))
            (getFilteredDomainData toLowerCase (toggleSort totalQueries s))
  ∧ (activeView s = ips →
     ordered IpEntry.uniqueDomains (sortDirection (toggleSort (uniqueField s) s))
             (getFilteredIPData toLowerCase (toggleSort (uniqueField s) s)))
  ∧ (activeView s = domains →
     ordered DomainEntry.uniqueIPs (sortDirection (toggleSort (uniqueField s) s))
             (getFilteredDomainData toLowerCase (toggleSort (uniqueField s) s))).
Proof.
  intros Hres.
  assert (∀ field, analysisResults (toggleSort field s) = Some results
                   ∧ sortField (toggleSort field s) = field) as Htoggle.
  { intros field. destruct s as [r v t f d]. simpl in Hres. subst r.
    by destruct field, f, d. }
  unfold getFilteredIPData, getFilteredDomainData.
  split; [| split; [| split]].
  - destruct (Htoggle totalQueries) as [-> ->].
    by apply (filtered_view toLowerCase IpEntry.ip (ipEntryField totalQueries)).
  - destruct (Htoggle totalQueries) as [-> ->].
    by apply (filtered_view toLowerCase DomainEntry.domain
                (domainEntryField totalQueries)).
  - intros Hview. unfold uniqueField. rewrite Hview.
    destruct (Htoggle uniqueDomains) as [-> ->].
    by apply (filtered_view toLowerCase IpEntry.ip (ipEntryField uniqueDomains)).
  - intros Hview. unfold uniqueField. rewrite Hview.
    destruct (Htoggle uniqueIPs) as [-> ->].
    by apply (filtered_view toLowerCase DomainEntry.domain
                (domainEntryField uniqueIPs)).
Qed.

End DomainViewFacts.

Lemma sort_buttons_order_the_list_witness :
  let on_ips := view_state View.ips "" View.totalQueries View.desc in
  let on_domains := view_state View.domains "" View.totalQueries View.desc in
  let by_total := View.toggleSort View.totalQueries in
  let by_unique := λ s, View.toggleSort (View.uniqueField s) s in
  (View.analysisResults on_ips = Some (processData view_rows)
   ∧ View.activeView on_ips = View.ips
   ∧ View.analysisResults on_domains = Some (processData view_rows)
   ∧ View.activeView on_domains = View.domains)
  ∧ ((λ e, (IpEntry.ip e, IpEntry.totalQueries e))
       <$> View.getFilteredIPData View.lowerAscii (by_total on_ips)
     = [ ("10.0.0.2"%string, 2); ("192.168.1.5"%string, 3); ("10.0.0.1"%string, 4) ]
     ∧ View.ordered IpEntry.totalQueries (View.sortDirection (by_total on_ips))
         (View.getFilteredIPData View.lowerAscii (by_total on_ips)))
  ∧ ((λ e, (DomainEntry.domain e, DomainEntry.totalQueries e))
       <$> View.getFilteredDomainData View.lowerAscii (by_total on_domains)
     = [ ("ADS.io"%string, 1); ("other.org"%string, 1); ("third.org"%string, 1);
         ("shared.net"%string, 2); ("example.com"%string, 4) ]
     ∧ View.ordered DomainEntry.totalQueries
         (View.sortDirection (by_total on_domains))
         (View.getFilteredDomainData View.lowerAscii (by_total on_domains)))
  ∧ ((λ e, (IpEntry.ip e, IpEntry.uniqueDomains e))
       <$> View.getFilteredIPData View.lowerAscii (by_unique on_ips)
     = [ ("192.168.1.5"%string, 3); ("10.0.0.2"%string, 2); ("10.0.0.1"%string, 1) ]
     ∧ View.ordered IpEntry.uniqueDomains (View.sortDirection (by_unique on_ips))
         (View.getFilteredIPData View.lowerAscii (by_unique on_ips)))
  ∧ ((λ e, (DomainEntry.domain e, DomainEntry.uniqueIPs e))
       <$> View.getFilteredDomainData View.lowerAscii (by_unique on_domains)
     = [ ("shared.net"%string, 2); ("example.com"%string, 1); ("ADS.io"%string, 1);
         ("other.org"%string, 1); ("third.org"%string, 1) ]
     ∧ View.ordered DomainEntry.uniqueIPs
         (View.sortDirection (by_unique on_domains))
         (View.getFilteredDomainData View.lowerAscii (by_unique on_domains))).
Proof.
  cbv zeta.
  pose proof (sort_buttons_order_the_list View.lowerAscii
                (view_state View.ips "" View.totalQueries View.desc)
                (processData view_rows) eq_refl) as (Hip & _ & Hipu & _).
  pose proof (sort_buttons_order_the_list View.lowerAscii
                (view_state View.domains "" View.totalQueries View.desc)
                (processData view_rows) eq_refl) as (_ & Hdom & _ & Hdomu).
  split; [by repeat split |].
  split; [split; [vm_compute; reflexivity | exact Hip] |].
  split; [split; [vm_compute; reflexivity | exact Hdom] |].
  split; [split; [vm_compute; reflexivity | exact (Hipu eq_refl)] |].
  split; [vm_compute; reflexivity | exact (Hdomu eq_refl)].
Defined.
